(** * Tropical House Customizer: prompt builder, options guard and
      variation orchestrator

    A shallow embedding of [App.tsx] (the React component's state and its
    handlers) and of [services/geminiService.ts] (the calls to the external
    image generator), with the properties of the options model, the prompt
    template and the fan-out/fan-in orchestration.

    Conventions of the embedding.
    - A JavaScript object used through computed keys (the options record) is
      a finite map from property names to values; an absent property reads
      as [None] (JavaScript's [undefined]).
    - JavaScript strings are [string], a character outside ASCII standing
      as the bytes of its UTF-8 encoding; template literals are
      concatenations with [+:+]; an interpolated [undefined] renders as
      the text "undefined".
    - Exceptions are results [Throw e]; calls to the outside world (file
      reader, generator, fetch) are answered by a [World] record, and every
      generator call and released object URL is appended to an event log.
    - A handler runs as one transition of the component state: the state
      cells it sets are read after its promises have settled.
    - Rendering, [console] output and the effect that releases object URLs
      when the displayed URLs change are not modelled. *)

From Stdlib Require Import ZArith List Ascii String DecimalString DecimalNat.
From stdpp Require Import base tactics option list strings gmap.

Local Open Scope string_scope.

(* ===================================================================== *)
(** * 1. Strings *)
(* ===================================================================== *)

Module Str.

(** [String.prototype.includes]: [includes s t] holds when [s] occurs in
    [t] as a contiguous run of characters. *)
Fixpoint includes (s t : string) : bool :=
  String.prefix s t ||
  match t with
  | EmptyString => false
  | String _ t' => includes s t'
  end.

(** The propositional reading of a substring. *)
Definition substring_of (s t : string) : Prop :=
  exists a b, t = a +:+ s +:+ b.

(** [compatible m s]: one of [m], [s] is a prefix of the other, so an
    occurrence of [m] could begin where [s] begins once more text follows. *)
Definition compatible (m s : string) : bool :=
  String.prefix m s || String.prefix s m.

(** [may_start m a]: some non-empty suffix of [a] is compatible with [m]. *)
Fixpoint may_start (m a : string) : bool :=
  match a with
  | EmptyString => false
  | String _ a' => compatible m a || may_start m a'
  end.

(** Decimal rendering of a number, as a template literal prints it. *)
Definition of_nat (n : nat) : string :=
  NilEmpty.string_of_uint (Nat.to_uint n).

(** [s.split(c)] for a one-character separator. *)
Fixpoint split (c : ascii) (s : string) : list string :=
  match s with
  | EmptyString => [EmptyString]
  | String x r =>
      if Ascii.eqb x c then EmptyString :: split c r
      else match split c r with
           | [] => [String x EmptyString]
           | h :: t => String x h :: t
           end
  end.

(** [s.substring(s.lastIndexOf(c) + 1)]: the text after the last [c], the
    whole string when [c] does not occur. *)
Fixpoint after_last (c : ascii) (s : string) : string :=
  match s with
  | EmptyString => EmptyString
  | String x r =>
      if includes (String c EmptyString) r then after_last c r
      else if Ascii.eqb x c then r
      else s
  end.

(** [s.toLowerCase()] on ASCII letters. *)
Definition lower_ascii (a : ascii) : ascii :=
  let n := nat_of_ascii a in
  if (65 <=? n)%nat && (n <=? 90)%nat then ascii_of_nat (n + 32) else a.

Fixpoint toLowerCase (s : string) : string :=
  match s with
  | EmptyString => EmptyString
  | String a r => String (lower_ascii a) (toLowerCase r)
  end.

End Str.

(* ===================================================================== *)
(** * 2. The options model ([types.ts], [App.tsx]) *)
(* ===================================================================== *)

(** Reading a property in a template literal: [undefined] prints as text. *)
Definition tpl (v : option string) : string :=
  match v with
  | Some s => s
  | None => "undefined"
  end.

(** [v !== 'lit'] for a property value that may be [undefined]. *)
Definition strict_ne (v : option string) (lit : string) : bool :=
  negb (bool_decide (v = Some lit)).

(** The eight keys of [CustomizationOptions]. *)
Inductive Field :=
  | colorTheme | doors | windows | frontYard
  | landscaping | outdoorFeatures | roof | furniture.

Definition all_fields : list Field :=
  [colorTheme; doors; windows; frontYard;
   landscaping; outdoorFeatures; roof; furniture].

Definition field_name (f : Field) : string :=
  match f with
  | colorTheme => "colorTheme"
  | doors => "doors"
  | windows => "windows"
  | frontYard => "frontYard"
  | landscaping => "landscaping"
  | outdoorFeatures => "outdoorFeatures"
  | roof => "roof"
  | furniture => "furniture"
  end.

(** The enumerated domain of each field, as [types.ts] declares it. *)
Definition domain (f : Field) : list string :=
  match f with
  | colorTheme =>
      ["Neutral Modern"; "Warm Natural"; "Dark Industrial"; "Tropical Light"]
  | doors =>
      ["Narra Wood"; "Steel Security"; "Glass Sliding"; "Double Swing Wood"]
  | windows =>
      ["Clear Glass Sliding"; "Tinted Glass"; "Jalousie"; "Awning Windows"]
  | frontYard =>
      ["Tropical Garden"; "Modern Tiled Patio"; "Simple Bermuda Grass";
       "Gravel & Planters"]
  | landscaping =>
      ["None"; "Minimalist Zen Garden"; "Flowering Tropical Paradise";
       "Rock Garden with Cacti"; "Vegetable Patch"]
  | outdoorFeatures =>
      ["None"; "2-Seater Kape Table"; "4-Seater Outdoor Dining";
       "Bamboo Bench"; "Hammock (Duyan)"]
  | roof =>
      ["Standard Metal Roof"; "Metal Roof with Solar Panels"; "Clay Tile Roof"]
  | furniture =>
      ["None"; "Wicker Sofa Set"; "Wooden Dining Table for 4";
       "Pair of Sun Loungers"]
  end.

(** A record as the TypeScript type describes it: each of the eight
    properties holds a value of its domain. *)
Definition well_typed (options : gmap string string) : Prop :=
  forall f, exists v, options !! field_name f = Some v /\ In v (domain f).

Definition initialOptions : gmap string string :=
  <["colorTheme" := "Tropical Light"]>
  (<["doors" := "Glass Sliding"]>
  (<["windows" := "Jalousie"]>
  (<["frontYard" := "Tropical Garden"]>
  (<["landscaping" := "None"]>
  (<["outdoorFeatures" := "None"]>
  (<["roof" := "Standard Metal Roof"]>
  (<["furniture" := "None"]> ∅))))))).

(** The property names every object inherits from [Object.prototype]. *)
Definition object_prototype_keys : list string :=
  ["constructor"; "__defineGetter__"; "__defineSetter__"; "hasOwnProperty";
   "__lookupGetter__"; "__lookupSetter__"; "isPrototypeOf";
   "propertyIsEnumerable"; "toString"; "valueOf"; "__proto__";
   "toLocaleString"].

(** [key in obj] for an object literal: own properties, then the prototype
    chain, which for a literal is [Object.prototype]. *)
Definition js_in (key : string) (obj : gmap string string) : bool :=
  bool_decide (is_Some (obj !! key)) ||
  bool_decide (key ∈ object_prototype_keys).

(** Type guard for customization keys. *)
Definition isCustomizationKey (key : string) : bool :=
  js_in key initialOptions.

(* ===================================================================== *)
(** * 3. The prompt builder ([buildPrompt] in [App.tsx]) *)
(* ===================================================================== *)

(** The furniture clause, for the selected furniture [v]: the template of
    the first branch of [furniturePrompt]. *)
Definition furnitureClause (v : string) : string :=
  "
- **Furniture:** Add a '"
  +:+ v
  +:+ "'. Place it naturally within any visible front yard or patio area. The furniture must be weather-resistant, complement the overall design, and be appropriate for a tropical climate.".

Definition furniturePrompt (options : gmap string string) : string :=
  if strict_ne (options !! "furniture") "None"
  then furnitureClause (tpl (options !! "furniture"))
  else "".

(** The landscaping-theme clause, for the selected theme [v]: the template
    of the first branch of [landscapingPrompt], with its legend. *)
Definition landscapingClause (v : string) : string :=
  "
  - **Landscaping Theme:** Within the front yard, introduce a '"
  +:+ v
  +:+ "' theme.
    - 'Minimalist Zen Garden': Use raked white sand, a few carefully placed boulders, and perhaps a single bonsai-style tree.
    - 'Flowering Tropical Paradise': Add an abundance of colorful, local flowering plants like hibiscus, bougainvillea, and birds of paradise.
    - 'Rock Garden with Cacti': A dry-style garden with various types of rocks, pebbles, and succulents or cacti suitable for a tropical climate.
    - 'Vegetable Patch': Create a neat, organized section with raised garden beds for growing vegetables.".

Definition landscapingPrompt (options : gmap string string) : string :=
  if strict_ne (options !! "landscaping") "None"
  then landscapingClause (tpl (options !! "landscaping"))
  else "".

Definition buildPrompt (options : gmap string string) : string :=
  "You are an expert architectural visualizer specializing in tropical design for the Philippines. Your task is to take the provided 3D render of an L-shaped modular home and place it into a photorealistic scene, modifying it according to the specifications below. The final image should be high-resolution and perfectly suited for a humid, tropical climate, maintaining the original structure's shape, perspective, and camera angle.

**Scene & Setting:** Create a lush, tropical environment in the Philippines to serve as the background and surroundings for the house.

**Lighting & Realism:** The scene must be rendered with hyper-realistic lighting appropriate for the Philippines. This includes soft, diffused sunlight (like a bright, slightly overcast day) that casts gentle shadows. Incorporate subtle ambient occlusion to give the structure and surrounding objects a sense of depth and grounding.

**Material & Texture Details:**
- **Wood:** When 'Narra Wood' or other wood accents are specified, render them with a rich, visible grain and a semi-gloss finish, showcasing the natural beauty of treated tropical hardwood.
- **Metal:** Metal roofs and trims should exhibit a subtle, realistic sheen that catches the light, indicating their material quality without being overly glossy.
- **Glass:** All glass surfaces (windows, sliding doors) must be highly reflective, clearly mirroring the lush tropical surroundings, clouds, and sky to enhance realism.

**Modifications to the House:**

- **Color & Style:** Apply the '"
  +:+ tpl (options !! "colorTheme")
  +:+ "' theme to the building.
  - 'Neutral Modern': Use light gray and white tones for walls and trims to reflect heat.
  - 'Warm Natural': Use beige, cream, and local tropical wood accents (like Narra or Mahogany).
  - 'Dark Industrial': Use charcoal gray or black with matte black metal trims, often used for modern tropical homes.
  - 'Tropical Light': Use off-white or very light pastel colors with natural wood accents, creating an airy feel.

- **Doors:** Change the doors to '"
  +:+ tpl (options !! "doors")
  +:+ "'. They must be suitable for tropical weather (durable against humidity and heat).
  - 'Narra Wood': A classic, beautiful, and durable Filipino hardwood door.
  - 'Steel Security': A practical, strong door for security.
  - 'Glass Sliding': Large sliding glass doors to maximize light and views, with strong frames.
  - 'Double Swing Wood': A grand entrance with two swinging wooden doors.

- **Windows:** Change the windows to '"
  +:+ tpl (options !! "windows")
  +:+ "'. They should promote ventilation and natural light.
  - 'Clear Glass Sliding': Standard sliding windows.
  - 'Tinted Glass': Darkened glass to reduce solar glare and heat.
  - 'Jalousie': The classic Filipino window with glass slats for maximum airflow, even during light rain.
  - 'Awning Windows': Windows hinged at the top, allowing ventilation while providing shelter from rain.

- **Front Yard:** Create a front yard in a '"
  +:+ tpl (options !! "frontYard")
  +:+ "' style.
  - 'Tropical Garden': Lush greenery with local Filipino plants like plumeria (kalachuchi), hibiscus (gumamela), palms, and broad-leafed plants.
  - 'Modern Tiled Patio': Use non-slip ceramic or concrete tiles for a clean, modern outdoor living space, perhaps with a small patch of grass.
  - 'Simple Bermuda Grass': A clean, manicured lawn.
  - 'Gravel & Planters': Use of decorative gravel (white or gray) with large concrete planters for a low-maintenance, modern look."
  +:+ landscapingPrompt options
  +:+ "

- **Roof:** Modify the roof to be a '"
  +:+ tpl (options !! "roof")
  +:+ "'.
  - 'Standard Metal Roof': A typical long-span corrugated metal roof, common in the Philippines.
  - 'Metal Roof with Solar Panels': Add sleek, modern solar panels to the metal roof.
  - 'Clay Tile Roof': Add a classic Spanish-style clay tile (tegula) roof, which helps keep the interior cool.

- **Outdoor Features:** Add the following feature: '"
  +:+ tpl (options !! "outdoorFeatures")
  +:+ "'.
  - If not 'None', place it naturally within the scene.
  - '2-Seater Kape Table': A small cafe table set for two, for enjoying coffee outdoors.
  - '4-Seater Outdoor Dining': A larger table set for four.
  - 'Bamboo Bench': A simple, locally-styled bamboo bench.
  - 'Hammock (Duyan)': A traditional Filipino hammock."
  +:+ furniturePrompt options
  +:+ "

**Important Rules:**
1.  ONLY modify the aspects of the house listed above. Maintain the L-shape.
2.  The result must be a single, photorealistic image.
3.  Do not add any text, labels, or watermarks.

The output should ONLY be the final, modified image.".

(** The heading by which the landscaping-theme clause is recognised. *)
Definition landscapingHeading : string := "**Landscaping Theme:**".

(** The fixed prompt of [generateBaseModelViews]. *)
Definition baseViewsPrompt : string :=
  "You are an expert architectural visualizer. Based on the provided image of an L-shaped modular home, create a single, cohesive image displaying photorealistic renders of the structure from multiple key angles: front, rear, and both sides. Arrange these four views in a clean 2x2 grid.

**Style & Climate:** The design should be a modern tropical style suitable for the Philippines.

**Rendering & Materials:**
- **Lighting:** Use realistic lighting for a bright, slightly overcast tropical day to produce soft shadows and avoid harsh glare. Include subtle ambient occlusion for depth.
- **Materials:** Render materials with realistic properties. Glass surfaces must be clearly reflective, and metal elements should have a slight sheen.
- **Background:** Each view must have a simple, neutral gray background.

**Output:** The final output must be ONLY the generated 2x2 grid image, with no text or labels.".

(* ===================================================================== *)
(** * 4. The external collaborators *)
(* ===================================================================== *)

(** What a [catch] can receive: an [Error] with its message, or any other
    thrown value (of which only its [String(...)] rendering is kept). *)
Inductive Exn :=
  | ErrorObj (message : string)
  | Thrown (rendering : string).

Inductive Result (A : Type) :=
  | Ok (a : A)
  | Throw (e : Exn).
Arguments Ok {A} a.
Arguments Throw {A} e.

Definition bind {A B} (r : Result A) (k : A -> Result B) : Result B :=
  match r with
  | Ok a => k a
  | Throw e => Throw e
  end.

Notation "'try!' x ':=' r 'in' k" := (bind r (fun x => k))
  (at level 10, x pattern, r at level 100, k at level 200).

(** A browser [File]: its name, MIME type and an identifier of its bytes. *)
Record File := {
  fileName : string;
  fileType : string;
  fileBytes : string
}.

(** The SDK's [Blob]: both properties are optional. *)
Record InlineData := {
  mimeType : option string;
  data : option string
}.

Record Part := {
  inlineData : option InlineData;
  text : option string
}.

Record Content := { parts : option (list Part) }.

Record Candidate := { content : option Content }.

Record GenerateContentResponse := { candidates : option (list Candidate) }.

Inductive Modality := IMAGE | TEXT.

(** The two parts of a request: the encoded base image and the text. *)
Inductive RequestPart :=
  | ImagePart (mime payload : string)
  | TextPart (prompt : string).

Record GenerateContentParameters := {
  model : string;
  contents : list RequestPart;
  responseModalities : list Modality
}.

(** A promise that has settled: when, and how. *)
Record Settled := {
  settledAt : nat;
  outcome : Exn + GenerateContentResponse
}.

(** A response of [fetch]: [res.ok], [res.status], and what [res.blob()]
    gives (the MIME type of the blob and an identifier of its bytes). *)
Record FetchResponse := {
  ok : bool;
  status : nat;
  blob : Result (string * string)
}.

(** The outside world as the code sees it. [generateContent k req] is the
    promise returned for the [k]-th call (counted from 0) of one
    orchestration, issued with request [req]. *)
Record World := {
  newGoogleGenAI : Result unit;
  readAsDataURL : File -> Result string;
  generateContent : nat -> GenerateContentParameters -> Settled;
  fetch : string -> Result FetchResponse;
  createObjectURL : File -> string
}.

(** What the handlers do to the outside world, in order. *)
Inductive Event :=
  | EvGenerate (request : GenerateContentParameters)
  | EvRevoke (url : string).

Definition is_generate (e : Event) : bool :=
  match e with
  | EvGenerate _ => true
  | EvRevoke _ => false
  end.

(* ===================================================================== *)
(** * 5. [services/geminiService.ts] *)
(* ===================================================================== *)

(** The line terminators U+2028 (line separator) and U+2029 (paragraph
    separator), as the three bytes each of them is in a string. *)
Definition lineSeparator : string :=
  String "226" (String "128" (String "168" EmptyString)).

Definition paragraphSeparator : string :=
  String "226" (String "128" (String "169" EmptyString)).

(** The group of [/:(.*?);/] when the match starts right before [s]: the
    shortest run up to a semicolon. The [.] of the expression refuses the
    four line terminators: line feed, carriage return, U+2028 and
    U+2029. *)
Fixpoint lazy_to_semicolon (s : string) : option string :=
  match s with
  | EmptyString => None
  | String c r =>
      if Ascii.eqb c ";" then Some EmptyString
      else if Ascii.eqb c "010" || Ascii.eqb c "013"
              || String.prefix lineSeparator s
              || String.prefix paragraphSeparator s then None
      else option_map (String c) (lazy_to_semicolon r)
  end.

(** [s.match(/:(.*?);/)]: the group of the leftmost match. *)
Fixpoint mime_match (s : string) : option string :=
  match s with
  | EmptyString => None
  | String c r =>
      if Ascii.eqb c ":" then
        match lazy_to_semicolon r with
        | Some g => Some g
        | None => mime_match r
        end
      else mime_match r
  end.

(** Helper function to convert a File object to a Gemini API Part. *)
Definition fileToPart (w : World) (file : File) : Result RequestPart :=
  try! dataUrl := readAsDataURL w file in
  match Str.split "," dataUrl with
  | head :: payload :: _ =>
      match mime_match head with
      | Some (String c m) => Ok (ImagePart (String c m) payload)
      | _ => Throw (ErrorObj "Could not parse MIME type from data URL")
      end
  | _ => Throw (ErrorObj "Invalid data URL")
  end.

(** [response.candidates?.[0]?.content?.parts?.find(part => part.inlineData)] *)
Definition imagePartFromResponse (response : GenerateContentResponse)
  : option Part :=
  match candidates response with
  | Some (c :: _) =>
      match content c with
      | Some ct =>
          match parts ct with
          | Some ps => List.find (fun part => bool_decide (is_Some (inlineData part))) ps
          | None => None
          end
      | None => None
      end
  | _ => None
  end.

(** The data URI of the first inline image of a response, when it has one. *)
Definition extractImageUrl (response : GenerateContentResponse)
  : option string :=
  match imagePartFromResponse response with
  | Some part =>
      match inlineData part with
      | Some d => Some ("data:" +:+ tpl (mimeType d) +:+ ";base64," +:+ tpl (data d))
      | None => None
      end
  | None => None
  end.

Definition request (baseImagePart : RequestPart) (prompt : string)
  : GenerateContentParameters :=
  {| model := "gemini-2.5-flash-image";
     contents := [baseImagePart; TextPart prompt];
     responseModalities := [IMAGE] |}.

(** [Promise.all]: the responses in request order when every promise
    resolves; otherwise the reason of the rejection that settles first. *)
Fixpoint first_rejection (ps : list Settled) : option (nat * Exn) :=
  match ps with
  | [] => None
  | p :: rest =>
      match outcome p, first_rejection rest with
      | inl e, Some (t, e') =>
          if (t <? settledAt p)%nat then Some (t, e') else Some (settledAt p, e)
      | inl e, None => Some (settledAt p, e)
      | inr _, later => later
      end
  end.

(** [await p] for one settled promise. *)
Definition await (p : Settled) : Result GenerateContentResponse :=
  match outcome p with
  | inl e => Throw e
  | inr r => Ok r
  end.

Definition resolved (ps : list Settled) : list GenerateContentResponse :=
  omap (fun p => match outcome p with inr r => Some r | inl _ => None end) ps.

Definition promise_all (ps : list Settled)
  : Result (list GenerateContentResponse) :=
  match first_rejection ps with
  | Some (_, e) => Throw e
  | None => Ok (resolved ps)
  end.

Definition variationInstruction : string :=
  "

**Variation Instruction:** Generate a unique, creative variation based on the above criteria. Show a different interpretation.".

(** The text of every request of one orchestration. *)
Definition variationPrompt (prompt : string) (variationCount : nat) : string :=
  if (1 <? variationCount)%nat then prompt +:+ variationInstruction
  else prompt.

(** The requests of [generationPromises], in index order. *)
Definition generationRequests (baseImagePart : RequestPart) (prompt : string)
    (variationCount : nat) : list GenerateContentParameters :=
  map (fun index : nat => request baseImagePart (variationPrompt prompt variationCount))
      (seq 0 variationCount).

(** The error of a response without an image, for the variation issued at
    [index] (the message counts variations from 1). *)
Definition missingImage (index : nat) : Exn :=
  ErrorObj ("The AI model did not return an image for variation "
            +:+ Str.of_nat (index + 1) +:+ ".").

(** [responses.map((response, index) => ...)]: the data URI of every
    response, stopping at the first response without an image. *)
Fixpoint extractAll (index : nat) (responses : list GenerateContentResponse)
  : Result (list string) :=
  match responses with
  | [] => Ok []
  | response :: rest =>
      match extractImageUrl response with
      | Some url =>
          try! urls := extractAll (S index) rest in
          Ok (url :: urls)
      | None => Throw (missingImage index)
      end
  end.

(** Generates one or more modified house images based on a base image and
    a descriptive prompt. The second component is the list of generator
    calls issued, in order. *)
Definition generateHouseImage (w : World) (baseImage : File)
    (prompt : string) (variationCount : nat)
  : Result (list string) * list Event :=
  match (try! _ := newGoogleGenAI w in fileToPart w baseImage) with
  | Throw e => (Throw e, [])
  | Ok baseImagePart =>
      let requests := generationRequests baseImagePart prompt variationCount in
      let generationPromises := imap (generateContent w) requests in
      (try! responses := promise_all generationPromises in
       try! finalImageUrls := extractAll 0 responses in
       if negb (length finalImageUrls =? variationCount)%nat then
         Throw (ErrorObj "The number of generated images did not match the requested count.")
       else Ok finalImageUrls,
       map EvGenerate requests)
  end.

(** The promise settled for the request issued at [index] of one
    orchestration. *)
Definition responseAt (w : World) (baseImagePart : RequestPart)
    (prompt : string) (variationCount index : nat)
  : Exn + GenerateContentResponse :=
  outcome (generateContent w index
             (request baseImagePart (variationPrompt prompt variationCount))).

(** Generates a grid of images showing the base model from all sides. *)
Definition generateBaseModelViews (w : World) (baseImage : File)
  : Result string * list Event :=
  match (try! _ := newGoogleGenAI w in fileToPart w baseImage) with
  | Throw e => (Throw e, [])
  | Ok baseImagePart =>
      let req := request baseImagePart baseViewsPrompt in
      (try! response := await (generateContent w 0 req) in
       match extractImageUrl response with
       | Some finalImageUrl => Ok finalImageUrl
       | None => Throw (ErrorObj "The AI model did not return an image for the base model views.")
       end,
       [EvGenerate req])
  end.

(* ===================================================================== *)
(** * 6. The component state and its handlers ([App.tsx]) *)
(* ===================================================================== *)

(** The eight [useState] cells of [App]. *)
Record AppState := {
  options : gmap string string;
  budget : Z;
  baseImageFile : option File;
  baseImageUrl : string;
  generatedImageUrls : list string;
  numberOfVariations : nat;
  isLoading : bool;
  error : option string
}.

Definition initialState : AppState :=
  {| options := initialOptions;
     budget := 350000;
     baseImageFile := None;
     baseImageUrl := "";
     generatedImageUrls := [];
     numberOfVariations := 1;
     isLoading := false;
     error := None |}.

Definition setOptions (v : gmap string string) (s : AppState) : AppState :=
  {| options := v; budget := budget s; baseImageFile := baseImageFile s;
     baseImageUrl := baseImageUrl s; generatedImageUrls := generatedImageUrls s;
     numberOfVariations := numberOfVariations s; isLoading := isLoading s;
     error := error s |}.

Definition setBudget (v : Z) (s : AppState) : AppState :=
  {| options := options s; budget := v; baseImageFile := baseImageFile s;
     baseImageUrl := baseImageUrl s; generatedImageUrls := generatedImageUrls s;
     numberOfVariations := numberOfVariations s; isLoading := isLoading s;
     error := error s |}.

Definition setBaseImageFile (v : option File) (s : AppState) : AppState :=
  {| options := options s; budget := budget s; baseImageFile := v;
     baseImageUrl := baseImageUrl s; generatedImageUrls := generatedImageUrls s;
     numberOfVariations := numberOfVariations s; isLoading := isLoading s;
     error := error s |}.

Definition setBaseImageUrl (v : string) (s : AppState) : AppState :=
  {| options := options s; budget := budget s; baseImageFile := baseImageFile s;
     baseImageUrl := v; generatedImageUrls := generatedImageUrls s;
     numberOfVariations := numberOfVariations s; isLoading := isLoading s;
     error := error s |}.

Definition setGeneratedImageUrls (v : list string) (s : AppState) : AppState :=
  {| options := options s; budget := budget s; baseImageFile := baseImageFile s;
     baseImageUrl := baseImageUrl s; generatedImageUrls := v;
     numberOfVariations := numberOfVariations s; isLoading := isLoading s;
     error := error s |}.

Definition setNumberOfVariations (v : nat) (s : AppState) : AppState :=
  {| options := options s; budget := budget s; baseImageFile := baseImageFile s;
     baseImageUrl := baseImageUrl s; generatedImageUrls := generatedImageUrls s;
     numberOfVariations := v; isLoading := isLoading s;
     error := error s |}.

Definition setIsLoading (v : bool) (s : AppState) : AppState :=
  {| options := options s; budget := budget s; baseImageFile := baseImageFile s;
     baseImageUrl := baseImageUrl s; generatedImageUrls := generatedImageUrls s;
     numberOfVariations := numberOfVariations s; isLoading := v;
     error := error s |}.

Definition setError (v : option string) (s : AppState) : AppState :=
  {| options := options s; budget := budget s; baseImageFile := baseImageFile s;
     baseImageUrl := baseImageUrl s; generatedImageUrls := generatedImageUrls s;
     numberOfVariations := numberOfVariations s; isLoading := isLoading s;
     error := v |}.

(** [err instanceof Error ? err.message : fallback] *)
Definition messageOr (fallback : Exn -> string) (e : Exn) : string :=
  match e with
  | ErrorObj message => message
  | Thrown _ => fallback e
  end.

(** [String(err)] *)
Definition rendered (e : Exn) : string :=
  match e with
  | ErrorObj message => "Error: " +:+ message
  | Thrown r => r
  end.

(** ** The mount effect: fetching the base image *)

Definition pathsToTry : list string :=
  ["/prefab.png"; "/image.png"; "/image-0.png"].

Inductive Probe :=
  | Found (successfulPath : string) (response : FetchResponse)
  | Stopped (errorMessage : string)
  | NotFound.

(** The loop over [pathsToTry]: the first response that is [ok]; a status
    other than 404 or a rejected [fetch] stops the search with an error. *)
Fixpoint probe (w : World) (paths : list string) : Probe :=
  match paths with
  | [] => NotFound
  | path :: rest =>
      match fetch w path with
      | Throw e => Stopped (messageOr rendered e)
      | Ok res =>
          if ok res then Found path res
          else if negb (status res =? 404)%nat then
            Stopped ("Server responded with status: " +:+ Str.of_nat (status res))
          else probe w rest
      end
  end.

(** Manually determine MIME type if server provides a generic one. *)
Definition sniffMimeType (blobType filename : string) : string :=
  if bool_decide (blobType = "") || bool_decide (blobType = "application/octet-stream") then
    let extension := Str.toLowerCase (List.last (Str.split "." filename) "") in
    if bool_decide (extension = "png") then "image/png"
    else if bool_decide (extension = "jpg") || bool_decide (extension = "jpeg") then "image/jpeg"
    else blobType
  else blobType.

Definition fetchBaseImage (w : World) (s : AppState) : AppState :=
  let s := setError None (setIsLoading true s) in
  match probe w pathsToTry with
  | Stopped errorMessage =>
      setIsLoading false
        (setError (Some ("Failed to fetch base image. " +:+ errorMessage)) s)
  | Found successfulPath response =>
      setIsLoading false
        match blob response with
        | Ok (blobType, bytes) =>
            let filename := Str.after_last "/" successfulPath in
            let file := {| fileName := filename;
                           fileType := sniffMimeType blobType filename;
                           fileBytes := bytes |} in
            setBaseImageUrl (createObjectURL w file) (setBaseImageFile (Some file) s)
        | Throw e =>
            setError (Some ("Failed to process the loaded base image. "
                            +:+ messageOr rendered e)) s
        end
  | NotFound =>
      setIsLoading false
        (setError (Some "Failed to load the base house image. Tried /prefab.png, /image.png and /image-0.png, but they were not found. Please ensure an image is included in the prompt.") s)
  end.

(** ** The handlers *)

Definition unknownError (_ : Exn) : string := "An unknown error occurred.".

(** [generatedImageUrls.forEach(url => URL.revokeObjectURL(url))] *)
Definition revokeAll (urls : list string) : list Event := map EvRevoke urls.

Definition handleGenerate (w : World) (s : AppState) : AppState * list Event :=
  match baseImageFile s with
  | None =>
      (setError (Some "Base image is not loaded. Cannot generate a new design.") s, [])
  | Some file =>
      let started := setError None (setIsLoading true s) in
      let released := revokeAll (generatedImageUrls s) in
      let prompt := buildPrompt (options s) in
      let '(result, calls) :=
        generateHouseImage w file prompt (numberOfVariations s) in
      (setIsLoading false
         match result with
         | Ok finalImageUrls => setGeneratedImageUrls finalImageUrls started
         | Throw err =>
             setGeneratedImageUrls []
               (setError (Some ("Failed to generate the image. "
                                +:+ messageOr unknownError err)) started)
         end,
       (released ++ calls)%list)
  end.

Definition handleGenerateBaseViews (w : World) (s : AppState)
  : AppState * list Event :=
  match baseImageFile s with
  | None =>
      (setError (Some "Base image is not loaded. Cannot generate views.") s, [])
  | Some file =>
      let started := setError None (setIsLoading true s) in
      let released := revokeAll (generatedImageUrls s) in
      let '(result, calls) := generateBaseModelViews w file in
      (setIsLoading false
         match result with
         | Ok finalImageUrl => setGeneratedImageUrls [finalImageUrl] started
         | Throw err =>
             setGeneratedImageUrls []
               (setError (Some ("Failed to generate base model views. "
                                +:+ messageOr unknownError err)) started)
         end,
       (released ++ calls)%list)
  end.

Definition handleReset (s : AppState) : AppState * list Event :=
  (setError None (setOptions initialOptions (setGeneratedImageUrls [] s)),
   revokeAll (generatedImageUrls s)).

(** The change handler of the eight selects: [name] and [value] are the
    [name] and [value] of the event's target. *)
Definition handleOptionChange (name value : string) (s : AppState) : AppState :=
  if isCustomizationKey name then
    setOptions (<[name := value]> (options s)) s
  else s.

(** ** The component as a transition system *)

Inductive Action :=
  | ActMount (w : World)
  | ActOptionChange (name value : string)
  | ActSetBudget (v : Z)
  | ActSetNumberOfVariations (v : nat)
  | ActGenerate (w : World)
  | ActGenerateBaseViews (w : World)
  | ActReset.

Definition step (s : AppState) (a : Action) : AppState * list Event :=
  match a with
  | ActMount w => (fetchBaseImage w s, [])
  | ActOptionChange name value => (handleOptionChange name value s, [])
  | ActSetBudget v => (setBudget v s, [])
  | ActSetNumberOfVariations v => (setNumberOfVariations v s, [])
  | ActGenerate w => handleGenerate w s
  | ActGenerateBaseViews w => handleGenerateBaseViews w s
  | ActReset => handleReset s
  end.

(** Running a sequence of actions from a state, collecting the events. *)
Fixpoint run (s : AppState) (actions : list Action) : AppState * list Event :=
  match actions with
  | [] => (s, [])
  | a :: rest =>
      let '(s1, ev1) := step s a in
      let '(s2, ev2) := run s1 rest in
      (s2, (ev1 ++ ev2)%list)
  end.

(** The states the component can be in: those some sequence of actions
    leads to from the initial state. The handlers are allowed in every
    state, also where the rendered buttons are disabled. *)
Definition reachable (s : AppState) : Prop :=
  exists actions, fst (run initialState actions) = s.

(** Results are only ever on display once a base image is loaded. *)
Definition results_need_base_image (s : AppState) : Prop :=
  baseImageFile s = None -> generatedImageUrls s = [].

(** Two states that differ at most in the budget. *)
Definition same_but_budget (s1 s2 : AppState) : Prop :=
  s2 = setBudget (budget s2) s1.

(** Two actions that differ at most in the budget they set. *)
Inductive same_but_budget_action : Action -> Action -> Prop :=
  | sbb_budget (v1 v2 : Z) :
      same_but_budget_action (ActSetBudget v1) (ActSetBudget v2)
  | sbb_same (a : Action) : same_but_budget_action a a.

(** ** The rendered controls and the image display *)

(** One select of the control panel: its [id] (also its [name]), its label
    and the values it offers. *)
Record OptionField := {
  fieldId : string;
  fieldLabel : string;
  fieldValues : list string
}.

Definition optionFields : list OptionField :=
  [ {| fieldId := "colorTheme"; fieldLabel := "Color Theme";
       fieldValues := ["Tropical Light"; "Neutral Modern"; "Warm Natural"; "Dark Industrial"] |};
    {| fieldId := "doors"; fieldLabel := "Doors";
       fieldValues := ["Narra Wood"; "Steel Security"; "Glass Sliding"; "Double Swing Wood"] |};
    {| fieldId := "windows"; fieldLabel := "Windows";
       fieldValues := ["Jalousie"; "Clear Glass Sliding"; "Tinted Glass"; "Awning Windows"] |};
    {| fieldId := "frontYard"; fieldLabel := "Frontyard Style";
       fieldValues := ["Tropical Garden"; "Modern Tiled Patio"; "Simple Bermuda Grass"; "Gravel & Planters"] |};
    {| fieldId := "landscaping"; fieldLabel := "Landscaping Style";
       fieldValues := ["None"; "Minimalist Zen Garden"; "Flowering Tropical Paradise"; "Rock Garden with Cacti"; "Vegetable Patch"] |};
    {| fieldId := "outdoorFeatures"; fieldLabel := "Outdoor Features";
       fieldValues := ["None"; "2-Seater Kape Table"; "4-Seater Outdoor Dining"; "Bamboo Bench"; "Hammock (Duyan)"] |};
    {| fieldId := "furniture"; fieldLabel := "Outdoor Furniture";
       fieldValues := ["None"; "Wicker Sofa Set"; "Wooden Dining Table for 4"; "Pair of Sun Loungers"] |};
    {| fieldId := "roof"; fieldLabel := "Roof Style";
       fieldValues := ["Standard Metal Roof"; "Metal Roof with Solar Panels"; "Clay Tile Roof"] |} ].

(** The change events the rendered selects can raise: the name of one of
    the selects with one of the values it offers. *)
Definition select_event (name value : string) : Prop :=
  exists field, In field optionFields /\ name = fieldId field /\
                In value (fieldValues field).

(** The values the variations select offers. *)
Definition variationChoices : list nat := [1; 3; 5]%nat.



(** [renderImageDisplay]: what is on display. *)
Definition urlsToDisplay (s : AppState) : list string :=
  if (0 <? length (generatedImageUrls s))%nat then generatedImageUrls s
  else if negb (bool_decide (baseImageUrl s = "")) then [baseImageUrl s]
  else [].

(** The error panel: rendered for [error && urlsToDisplay.length === 0]. *)
Definition errorPanel (s : AppState) : option string :=
  match error s with
  | Some message =>
      if negb (bool_decide (message = "")) && (length (urlsToDisplay s) =? 0)%nat
      then Some message
      else None
  | None => None
  end.


(** [disabled={isLoading || !baseImageFile}] of the three buttons. *)
Definition buttonsDisabled (s : AppState) : bool :=
  isLoading s || negb (bool_decide (is_Some (baseImageFile s))).

(** ** Sample collaborators *)

Definition sampleFile : File :=
  {| fileName := "prefab.png"; fileType := "image/png"; fileBytes := "PNG" |}.

(** A response whose second part carries an inline image. *)
Definition imageResponse (payload : string) : GenerateContentResponse :=
  {| candidates := Some
       [ {| content := Some
              {| parts := Some
                   [ {| inlineData := None; text := Some "Here is the design." |};
                     {| inlineData := Some {| mimeType := Some "image/png";
                                              data := Some payload |};
                        text := None |} ] |} |} ] |}.

(** A response that only carries text. *)
Definition textOnlyResponse : GenerateContentResponse :=
  {| candidates := Some
       [ {| content := Some
              {| parts := Some
                   [ {| inlineData := None; text := Some "I cannot do that." |} ] |} |} ] |}.

(** A world in which the base image is served at /image.png, the file
    reader works, and the [k]-th generator call settles at time [k] with
    [answer k]. *)
Definition sampleWorld (answer : nat -> Exn + GenerateContentResponse) : World :=
  {| newGoogleGenAI := Ok tt;
     readAsDataURL := fun _ => Ok "data:image/png;base64,UE5H";
     generateContent := fun k _ => {| settledAt := k; outcome := answer k |};
     fetch := fun path =>
       if bool_decide (path = "/image.png") then
         Ok {| ok := true; status := 200;
               blob := Ok ("application/octet-stream", "PNG") |}
       else
         Ok {| ok := false; status := 404; blob := Throw (Thrown "no body") |};
     createObjectURL := fun file => "blob:" +:+ fileName file |}.

(** Every call answers with an image that carries the index of the call. *)
Definition allImages (k : nat) : Exn + GenerateContentResponse :=
  inr (imageResponse ("IMG" +:+ Str.of_nat k)).

(** As [allImages], but the call at index 1 answers with text only. *)
Definition secondWithoutImage (k : nat) : Exn + GenerateContentResponse :=
  if (k =? 1)%nat then inr textOnlyResponse else allImages k.

(** A state in which three variations are on display: the base image was
    fetched, three variations were selected and generated. *)
Definition sampleActions : list Action :=
  [ActMount (sampleWorld allImages);
   ActSetNumberOfVariations 3;
   ActGenerate (sampleWorld allImages)].

Definition sampleState : AppState := fst (run initialState sampleActions).

(** ** Notions used to state further properties of the prompt *)

(** [String.prototype.endsWith]. *)
Fixpoint ends_with (s t : string) : bool :=
  bool_decide (s = t) ||
  match t with
  | EmptyString => false
  | String _ t' => ends_with s t'
  end.

(** The heading by which the furniture clause is recognised. *)
Definition furnitureHeading : string := "**Furniture:**".

(** The sentence that carries the selected value [v] of one of the six
    fields whose clause is part of the fixed template. *)
Definition selectionSentence (f : Field) (v : string) : string :=
  match f with
  | colorTheme => "- **Color & Style:** Apply the '" +:+ v +:+ "' theme to the building."
  | doors => "- **Doors:** Change the doors to '" +:+ v +:+ "'."
  | windows => "- **Windows:** Change the windows to '" +:+ v +:+ "'."
  | frontYard => "- **Front Yard:** Create a front yard in a '" +:+ v +:+ "' style."
  | roof => "- **Roof:** Modify the roof to be a '" +:+ v +:+ "'."
  | outdoorFeatures => "- **Outdoor Features:** Add the following feature: '" +:+ v +:+ "'."
  | landscaping => landscapingClause v
  | furniture => furnitureClause v
  end.

(** What a field contributes to the prompt for the selected value [v]: the
    value itself, or, for the two optional clauses, the clause or nothing. *)
Definition rendering (f : Field) (v : string) : string :=
  match f with
  | landscaping => if strict_ne (Some v) "None" then landscapingClause v else ""
  | furniture => if strict_ne (Some v) "None" then furnitureClause v else ""
  | _ => v
  end.

(** [distinguishes g sep dom]: followed by [sep], the renderings of two
    different values of [dom] part ways before either ends. *)
Definition distinguishes (g : string -> string) (sep : string)
    (dom : list string) : bool :=
  forallb (fun v =>
    forallb (fun v' =>
      bool_decide (v = v') || negb (Str.compatible (g v +:+ sep) (g v' +:+ sep)))
      dom) dom.

(** ** Notions used to state further properties of the service *)

(** The character [c] occurs in [s]. *)
Fixpoint occurs (c : ascii) (s : string) : bool :=
  match s with
  | EmptyString => false
  | String x r => Ascii.eqb x c || occurs c r
  end.

(** A MIME type that a data URL can carry and [fileToPart] reads back: not
    empty, and free of semicolons, commas and the four line terminators
    (line feed, carriage return, U+2028, U+2029). *)
Definition plain_mime (m : string) : Prop :=
  m <> "" /\ occurs ";" m = false /\ occurs "," m = false /\
  occurs "010" m = false /\ occurs "013" m = false /\
  Str.includes lineSeparator m = false /\
  Str.includes paragraphSeparator m = false.

(** The sample world, with the file reader answering [read]. *)
Definition sampleWorldReading (read : Result string) : World :=
  {| newGoogleGenAI := Ok tt;
     readAsDataURL := fun _ => read;
     generateContent := generateContent (sampleWorld allImages);
     fetch := fetch (sampleWorld allImages);
     createObjectURL := createObjectURL (sampleWorld allImages) |}.

(** The promise of the call issued at [index] of one orchestration. *)
Definition promiseAt (w : World) (baseImagePart : RequestPart)
    (prompt : string) (variationCount index : nat) : Settled :=
  generateContent w index
    (request baseImagePart (variationPrompt prompt variationCount)).

(** As [allImages], but the call at index 2 is rejected. *)
Definition thirdRejected (k : nat) : Exn + GenerateContentResponse :=
  if (k =? 2)%nat then inl (ErrorObj "503 Service Unavailable")
  else secondWithoutImage k.

(** ** Notions used to state further properties of the component *)

(** The path [q] answers "404 Not Found". *)
Definition not_found (w : World) (q : string) : Prop :=
  exists res, fetch w q = Ok res /\ ok res = false /\ status res = 404%nat.

(** A blob type the code does not trust: empty or the generic one. *)
Definition generic_type (blobType : string) : bool :=
  bool_decide (blobType = "") || bool_decide (blobType = "application/octet-stream").

(** The actions the rendered controls can raise: a change of one of the
    eight selects to one of its values, a choice of 1, 3 or 5 variations,
    and everything else (slider, buttons, mount) unrestricted. *)
Definition from_controls (a : Action) : Prop :=
  match a with
  | ActOptionChange name value => select_event name value
  | ActSetNumberOfVariations v => In v variationChoices
  | _ => True
  end.

(** Every field of the options record holds a value. *)
Definition fully_populated (s : AppState) : Prop :=
  forall f, is_Some (options s !! field_name f).

(** A world that serves no base image: every path answers 404. *)
Definition worldWithoutImage : World :=
  {| newGoogleGenAI := Ok tt;
     readAsDataURL := readAsDataURL (sampleWorld allImages);
     generateContent := generateContent (sampleWorld allImages);
     fetch := fun _ => Ok {| ok := false; status := 404;
                             blob := Throw (Thrown "no body") |};
     createObjectURL := createObjectURL (sampleWorld allImages) |}.

(** Two runs of the sample session that differ in the budgets chosen on
    the slider. *)
Definition frugalActions : list Action :=
  ActSetBudget 350000 :: sampleActions.

Definition lavishActions : list Action :=
  ActSetBudget 2000000 :: sampleActions.

(** The parts in which a response is searched for an image: those of its
    first candidate, none when a link of the chain is missing. *)
Definition searchedParts (response : GenerateContentResponse) : list Part :=
  match candidates response with
  | Some (c :: _) =>
      match content c with
      | Some ct => match parts ct with Some ps => ps | None => [] end
      | None => []
      end
  | _ => []
  end.

(** The data URI of an inline image. *)
Definition dataUri (d : InlineData) : string :=
  "data:" +:+ tpl (mimeType d) +:+ ";base64," +:+ tpl (data d).

(* ===================================================================== *)
(** * 7. Facts about strings *)
(* ===================================================================== *)

Module StrFacts.
Import Str.

Lemma append_nil_l (b : string) : "" +:+ b = b.
Proof. reflexivity. Qed.

Lemma append_cons x (a b : string) : String x a +:+ b = String x (a +:+ b).
Proof. reflexivity. Qed.

Lemma append_assoc (a b c : string) : (a +:+ b) +:+ c = a +:+ b +:+ c.
Proof.
  induction a as [|x a IH]; [reflexivity |].
  rewrite !append_cons, IH. reflexivity.
Qed.

Lemma append_nil_r (a : string) : a +:+ "" = a.
Proof.
  induction a as [|x a IH]; [reflexivity |].
  rewrite append_cons, IH. reflexivity.
Qed.

Lemma prefix_cons x s y t :
  String.prefix (String x s) (String y t)
  = if ascii_dec x y then String.prefix s t else false.
Proof. reflexivity. Qed.

Lemma prefix_nil (t : string) : String.prefix "" t = true.
Proof. destruct t; reflexivity. Qed.

Lemma includes_unfold (s t : string) :
  includes s t
  = String.prefix s t ||
    match t with
    | EmptyString => false
    | String _ t' => includes s t'
    end.
Proof. destruct t; reflexivity. Qed.

Lemma prefix_append (s b : string) : String.prefix s (s +:+ b) = true.
Proof.
  induction s as [|x s IH]; [apply prefix_nil |].
  rewrite append_cons, prefix_cons.
  destruct (ascii_dec x x); [exact IH | congruence].
Qed.

Lemma prefix_split (s t : string) :
  String.prefix s t = true -> exists b, t = s +:+ b.
Proof.
  revert t; induction s as [|x s IH]; intros t H.
  - exists t; reflexivity.
  - destruct t as [|y t]; [discriminate |].
    rewrite prefix_cons in H. destruct (ascii_dec x y) as [->|]; [|discriminate].
    destruct (IH _ H) as [b ->]. exists b; reflexivity.
Qed.

Lemma includes_intro (s a b : string) : includes s (a +:+ s +:+ b) = true.
Proof.
  induction a as [|x a IH].
  - rewrite append_nil_l, includes_unfold, prefix_append. reflexivity.
  - rewrite append_cons, includes_unfold, IH. apply orb_true_r.
Qed.

Lemma includes_elim (s t : string) :
  includes s t = true -> substring_of s t.
Proof.
  induction t as [|y t IH]; rewrite includes_unfold; intros H.
  - rewrite orb_false_r in H. destruct (prefix_split _ _ H) as [b Hb].
    exists "", b. exact Hb.
  - apply orb_true_iff in H as [H|H].
    + destruct (prefix_split _ _ H) as [b Hb]. exists "", b. exact Hb.
    + destruct (IH H) as (a & b & ->). exists (String y a), b. reflexivity.
Qed.

(** [includes] decides [substring_of]. *)
Lemma includes_spec (s t : string) :
  includes s t = true <-> substring_of s t.
Proof.
  split; [apply includes_elim |].
  intros (a & b & ->). apply includes_intro.
Qed.

Lemma not_includes_spec (s t : string) :
  includes s t = false <-> ~ substring_of s t.
Proof.
  rewrite <- includes_spec. destruct (includes s t); split; intros H;
    try reflexivity; try discriminate; try congruence.
Qed.

Lemma substring_of_refl (s : string) : substring_of s s.
Proof. exists "", "". now rewrite append_nil_l, append_nil_r. Qed.

Lemma substring_of_app_l (s a b : string) :
  substring_of s a -> substring_of s (a +:+ b).
Proof.
  intros (p & q & ->). exists p, (q +:+ b).
  now rewrite !append_assoc.
Qed.

Lemma substring_of_app_r (s a b : string) :
  substring_of s b -> substring_of s (a +:+ b).
Proof.
  intros (p & q & ->). exists (a +:+ p), q.
  now rewrite !append_assoc.
Qed.

Lemma substring_of_trans (s t u : string) :
  substring_of s t -> substring_of t u -> substring_of s u.
Proof.
  intros (p & q & ->) (p' & q' & ->).
  exists (p' +:+ p), (q +:+ q'). now rewrite !append_assoc.
Qed.

(** Where [m] and [s] are incompatible, no text after [s] makes [m] a
    prefix. *)
Lemma incompatible_prefix (m s b : string) :
  compatible m s = false -> String.prefix m (s +:+ b) = false.
Proof.
  unfold compatible. revert s; induction m as [|x m IH]; intros s H.
  - rewrite prefix_nil in H. discriminate.
  - destruct s as [|y s].
    + discriminate.
    + rewrite append_cons. rewrite !prefix_cons in *.
      destruct (ascii_dec x y) as [->|]; [|reflexivity].
      destruct (ascii_dec y y); [|congruence]. apply IH, H.
Qed.

(** An occurrence of [m] that cannot begin inside [a] lies after [a]. *)
Lemma includes_skip (m a b : string) :
  may_start m a = false -> includes m (a +:+ b) = includes m b.
Proof.
  induction a as [|x a IH]; intros H; [reflexivity |].
  simpl in H. apply orb_false_iff in H as [Hc Hs].
  rewrite append_cons, includes_unfold, <- append_cons.
  rewrite (incompatible_prefix _ _ _ Hc), (IH Hs). reflexivity.
Qed.

End StrFacts.

(* ===================================================================== *)
(** * 8. The prompt builder: legends and optional clauses *)
(* ===================================================================== *)

Module Prompt.
Import Str StrFacts.

(** Looks for a closed string in a concatenation, piece by piece. *)
Ltac find_sub :=
  lazymatch goal with
  | |- substring_of _ (_ +:+ _) =>
      first [ apply substring_of_app_l; find_sub
            | apply substring_of_app_r; find_sub ]
  | |- substring_of ?v ?v => apply substring_of_refl
  | |- substring_of _ (String _ _) =>
      apply includes_spec; vm_compute; reflexivity
  end.

(** Skips one piece of a concatenation in which the heading cannot begin. *)
Ltac skip_piece :=
  rewrite includes_skip by (first [ assumption | vm_compute; reflexivity ]).

Lemma strict_ne_same (lit : string) : strict_ne (Some lit) lit = false.
Proof. unfold strict_ne. rewrite bool_decide_eq_true_2; reflexivity. Qed.

Lemma strict_ne_other (v : option string) (lit : string) :
  v <> Some lit -> strict_ne v lit = true.
Proof. intros H. unfold strict_ne. rewrite bool_decide_eq_false_2; auto. Qed.

Lemma initialOptions_well_typed : well_typed initialOptions.
Proof.
  intros f; destruct f; eexists; (split; [reflexivity | simpl; tauto]).
Qed.

(** No value of any domain lets the landscaping heading begin inside it. *)
Lemma domain_no_heading (f : Field) (v : string) :
  In v (domain f) -> may_start landscapingHeading v = false.
Proof.
  destruct f; simpl; intros H;
    repeat (destruct H as [<-|H]; [vm_compute; reflexivity |]);
    destruct H.
Qed.

Lemma well_typed_lookup (options : gmap string string) (f : Field) :
  well_typed options ->
  may_start landscapingHeading (tpl (options !! field_name f)) = false.
Proof.
  intros H. destruct (H f) as (v & -> & Hv). simpl.
  apply (domain_no_heading f v Hv).
Qed.

(** The furniture clause never contains the landscaping heading. *)
Lemma furniturePrompt_no_heading (options : gmap string string) (rest : string) :
  well_typed options ->
  includes landscapingHeading (furniturePrompt options +:+ rest)
  = includes landscapingHeading rest.
Proof.
  intros H. pose proof (well_typed_lookup options furniture H) as Hf.
  simpl in Hf. unfold furniturePrompt, furnitureClause.
  destruct (strict_ne (options !! "furniture") "None"); [|reflexivity].
  rewrite !append_assoc. repeat skip_piece. reflexivity.
Qed.

(** With the sentinel selected, the landscaping heading is nowhere in the
    prompt. *)
Lemma no_heading_when_None (options : gmap string string) :
  well_typed options ->
  options !! "landscaping" = Some "None" ->
  includes landscapingHeading (buildPrompt options) = false.
Proof.
  intros H HNone.
  pose proof (well_typed_lookup options colorTheme H) as H1.
  pose proof (well_typed_lookup options doors H) as H2.
  pose proof (well_typed_lookup options windows H) as H3.
  pose proof (well_typed_lookup options frontYard H) as H4.
  pose proof (well_typed_lookup options roof H) as H5.
  pose proof (well_typed_lookup options outdoorFeatures H) as H6.
  simpl in H1, H2, H3, H4, H5, H6.
  unfold buildPrompt, landscapingPrompt.
  rewrite HNone, strict_ne_same, append_nil_l.
  repeat skip_piece.
  rewrite furniturePrompt_no_heading by assumption.
  vm_compute; reflexivity.
Qed.

(** The heading is part of the clause, and so is the selected value. *)
Lemma landscapingClause_heading (v : string) :
  substring_of landscapingHeading (landscapingClause v).
Proof.
  unfold landscapingClause, landscapingHeading.
  exists "
  - ", (" Within the front yard, introduce a '" +:+ v +:+ "' theme.
    - 'Minimalist Zen Garden': Use raked white sand, a few carefully placed boulders, and perhaps a single bonsai-style tree.
    - 'Flowering Tropical Paradise': Add an abundance of colorful, local flowering plants like hibiscus, bougainvillea, and birds of paradise.
    - 'Rock Garden with Cacti': A dry-style garden with various types of rocks, pebbles, and succulents or cacti suitable for a tropical climate.
    - 'Vegetable Patch': Create a neat, organized section with raised garden beds for growing vegetables.").
  reflexivity.
Qed.

Lemma landscapingClause_value (v : string) :
  substring_of v (landscapingClause v).
Proof.
  unfold landscapingClause.
  apply substring_of_app_r, substring_of_app_l, substring_of_refl.
Qed.

(** With another value selected, the clause is there, rendered for it. *)
Lemma clause_when_selected (options : gmap string string) (v : string) :
  options !! "landscaping" = Some v ->
  v <> "None" ->
  substring_of (landscapingClause v) (buildPrompt options).
Proof.
  intros Hv Hne. unfold buildPrompt, landscapingPrompt.
  rewrite Hv, strict_ne_other by congruence.
  cbn [tpl].
  do 9 apply substring_of_app_r. apply substring_of_app_l, substring_of_refl.
Qed.

End Prompt.

Import Str StrFacts Prompt.

(** C3 (as the code has it). Legend completeness holds for the six fields
    whose legend is part of the fixed template, and for the landscaping
    field whenever its optional clause is rendered: for every options
    record, every field [f] other than [furniture] and every value [v] of
    the domain of [f], [v] occurs in the rendered prompt whichever values
    are selected, provided that, for [f = landscaping], the selected
    landscaping value is not the sentinel "None". *)
Theorem legend_completeness_by_design
    (options : gmap string string) (f : Field) (v : string) :
  In v (domain f) ->
  f <> furniture ->
  (f = landscaping -> options !! "landscaping" <> Some "None") ->
  substring_of v (buildPrompt options).
Proof.
  intros Hv Hf Hl. unfold buildPrompt.
  destruct f; try congruence; simpl in Hv.
  5: unfold landscapingPrompt, landscapingClause;
     rewrite (strict_ne_other _ _ (Hl eq_refl)).
  all: repeat (destruct Hv as [<-|Hv]; [find_sub |]); destruct Hv.
Qed.

Lemma legend_completeness_by_design_witness :
  substring_of "Neutral Modern" (buildPrompt initialOptions) /\
  substring_of "Rock Garden with Cacti"
    (buildPrompt (<["landscaping" := "Vegetable Patch"]> initialOptions)).
Proof.
  split.
  - apply (legend_completeness_by_design initialOptions colorTheme).
    + simpl; tauto.
    + discriminate.
    + discriminate.
  - apply (legend_completeness_by_design _ landscaping).
    + simpl; tauto.
    + discriminate.
    + intros _. vm_compute. discriminate.
Defined.

(** C3 (as stated) fails: with the default options, "Minimalist Zen Garden"
    (a value of the landscaping domain) and "Wicker Sofa Set" (a value of
    the furniture domain) occur nowhere in the rendered prompt. *)
Lemma legend_completeness_counterexample :
  well_typed initialOptions /\
  (In "Minimalist Zen Garden" (domain landscaping) /\
   ~ substring_of "Minimalist Zen Garden" (buildPrompt initialOptions)) /\
  (In "Wicker Sofa Set" (domain furniture) /\
   ~ substring_of "Wicker Sofa Set" (buildPrompt initialOptions)).
Proof.
  split; [apply initialOptions_well_typed |].
  split; (split; [simpl; tauto | apply not_includes_spec; vm_compute; reflexivity]).
Qed.

(** The furniture field has no legend: a furniture value other than the
    selected one is absent even when the furniture clause is rendered. *)
Lemma furniture_has_no_legend :
  let options := <["furniture" := "Wicker Sofa Set"]> initialOptions in
  includes (furnitureClause "Wicker Sofa Set") (buildPrompt options) = true /\
  includes "Pair of Sun Loungers" (buildPrompt options) = false.
Proof. split; vm_compute; reflexivity. Qed.

(** C4. Sentinel suppression: for every well-typed options record, when
    landscaping is "None" the rendered prompt contains no landscaping-theme
    clause (neither its heading nor the clause rendered for any value);
    when landscaping is any other value [v], the prompt contains the
    landscaping-theme clause rendered for [v], which carries [v]
    verbatim. *)
Theorem sentinel_suppression (options : gmap string string) :
  well_typed options ->
  (options !! "landscaping" = Some "None" ->
   ~ substring_of landscapingHeading (buildPrompt options) /\
   forall v, ~ substring_of (landscapingClause v) (buildPrompt options)) /\
  (forall v, options !! "landscaping" = Some v -> v <> "None" ->
   substring_of (landscapingClause v) (buildPrompt options) /\
   substring_of v (landscapingClause v)).
Proof.
  intros H. split.
  - intros HNone.
    assert (Hno : ~ substring_of landscapingHeading (buildPrompt options)).
    { apply not_includes_spec. now apply no_heading_when_None. }
    split; [exact Hno |]. intros v Hv. apply Hno.
    apply (substring_of_trans _ _ _ (landscapingClause_heading v) Hv).
  - intros v Hv Hne. split.
    + now apply clause_when_selected.
    + apply landscapingClause_value.
Qed.

Lemma sentinel_suppression_witness :
  (~ substring_of landscapingHeading (buildPrompt initialOptions)) /\
  substring_of (landscapingClause "Vegetable Patch")
    (buildPrompt (<["landscaping" := "Vegetable Patch"]> initialOptions)).
Proof.
  split.
  - apply (proj1 (sentinel_suppression initialOptions initialOptions_well_typed)).
    reflexivity.
  - assert (Hwt : well_typed (<["landscaping" := "Vegetable Patch"]> initialOptions)).
    { intros f; destruct f; eexists; (split; [reflexivity | simpl; tauto]). }
    apply (proj2 (sentinel_suppression _ Hwt) "Vegetable Patch").
    + reflexivity.
    + discriminate.
Defined.

(* ===================================================================== *)
(** * 9. The variation orchestrator *)
(* ===================================================================== *)

Module Orchestrator.

Lemma map_const_seq {A} (r : A) (n k : nat) :
  map (fun _ : nat => r) (seq k n) = replicate n r.
Proof.
  revert k; induction n as [|n IH]; intros k; [reflexivity |].
  simpl. f_equal. apply IH.
Qed.

Lemma generationRequests_replicate part prompt n :
  generationRequests part prompt n
  = replicate n (request part (variationPrompt prompt n)).
Proof. apply map_const_seq. Qed.

Lemma generationRequests_length part prompt n :
  length (generationRequests part prompt n) = n.
Proof. rewrite generationRequests_replicate. apply length_replicate. Qed.

Lemma generationRequests_lookup part prompt n i :
  (i < n)%nat ->
  generationRequests part prompt n !! i
  = Some (request part (variationPrompt prompt n)).
Proof.
  intros Hi. rewrite generationRequests_replicate.
  now apply lookup_replicate_2.
Qed.

(** The promises of one orchestration, by index. *)
Lemma generationPromises_lookup w part prompt n i :
  (i < n)%nat ->
  imap (generateContent w) (generationRequests part prompt n) !! i
  = Some (generateContent w i (request part (variationPrompt prompt n))).
Proof.
  intros Hi. rewrite list_lookup_imap, generationRequests_lookup by exact Hi.
  reflexivity.
Qed.

Lemma generationPromises_length w part prompt n :
  length (imap (generateContent w) (generationRequests part prompt n)) = n.
Proof. rewrite length_imap. apply generationRequests_length. Qed.

(** [Promise.all] resolves exactly when every promise does, and then to
    the responses in the order of the promises. *)
Lemma first_rejection_None (ps : list Settled) :
  first_rejection ps = None <->
  Forall (fun p => exists r, outcome p = inr r) ps.
Proof.
  induction ps as [|p ps IH]; simpl.
  - split; [constructor | reflexivity].
  - destruct (outcome p) as [e|r] eqn:E.
    + split.
      * destruct (first_rejection ps) as [[t e']|]; [|discriminate].
        destruct (t <? settledAt p)%nat; discriminate.
      * intros H. inversion H as [|? ? [r Hr] _]; subst. congruence.
    + rewrite IH. split; intros H.
      * constructor; [now exists r | assumption].
      * now inversion H.
Qed.

Lemma resolved_all (ps : list Settled) (rs : list GenerateContentResponse) :
  Forall2 (fun p r => outcome p = inr r) ps rs -> resolved ps = rs.
Proof.
  unfold resolved. induction 1 as [|p r ps rs Hp _ IH]; [reflexivity |].
  simpl. rewrite Hp. simpl. f_equal. exact IH.
Qed.

Lemma resolved_Forall2 (ps : list Settled) :
  Forall (fun p => exists r, outcome p = inr r) ps ->
  Forall2 (fun p r => outcome p = inr r) ps (resolved ps).
Proof.
  unfold resolved. induction 1 as [|p ps [r Hr] _ IH]; simpl; [constructor |].
  rewrite Hr. simpl. constructor; assumption.
Qed.

Lemma promise_all_Ok (ps : list Settled) (rs : list GenerateContentResponse) :
  promise_all ps = Ok rs <-> Forall2 (fun p r => outcome p = inr r) ps rs.
Proof.
  unfold promise_all. split.
  - destruct (first_rejection ps) as [[t e]|] eqn:E; [discriminate |].
    intros [= <-]. now apply resolved_Forall2, first_rejection_None.
  - intros H. pose proof (resolved_all _ _ H) as Hr.
    assert (Hnone : first_rejection ps = None).
    { apply first_rejection_None. clear Hr.
      induction H; constructor; eauto. }
    now rewrite Hnone, Hr.
Qed.

(** The extraction of a batch succeeds exactly when every response carries
    an image, and then yields one data URI per response, in order. *)
Lemma extractAll_Ok (k : nat) (rs : list GenerateContentResponse) (urls : list string) :
  extractAll k rs = Ok urls <->
  Forall2 (fun r u => extractImageUrl r = Some u) rs urls.
Proof.
  revert k urls; induction rs as [|r rs IH]; intros k urls; simpl.
  - split; [intros [= <-]; constructor | intros H; now inversion H].
  - destruct (extractImageUrl r) as [u|] eqn:E.
    + destruct (extractAll (S k) rs) as [us|e] eqn:E'; simpl.
      * split.
        -- intros [= <-]. constructor; [exact E | now apply (IH (S k))].
        -- intros H. inversion H as [|? u' ? us' Hu Hus]; subst.
           apply (IH (S k)) in Hus. congruence.
      * split; [discriminate |].
        intros H. inversion H as [|? u' ? us' Hu Hus]; subst.
        apply (IH (S k)) in Hus. congruence.
    + split; [discriminate |]. intros H. inversion H; congruence.
Qed.

(** The extraction of a batch in which some response has no image stops at
    the first such response and reports its position. *)
Lemma extractAll_Throw (k : nat) (rs : list GenerateContentResponse) :
  Exists (fun r => extractImageUrl r = None) rs ->
  exists i r,
    rs !! i = Some r /\ extractImageUrl r = None /\
    (forall j r', (j < i)%nat -> rs !! j = Some r' -> extractImageUrl r' <> None) /\
    extractAll k rs = Throw (missingImage (k + i)).
Proof.
  revert k; induction rs as [|r rs IH]; intros k H; [inversion H |].
  simpl. destruct (extractImageUrl r) as [u|] eqn:E.
  - inversion H as [? ? Hr|? ? Hrs]; subst; [congruence |].
    destruct (IH (S k) Hrs) as (i & r0 & Hi & Hr0 & Hmin & Hthrow).
    exists (S i), r0. repeat split; try assumption.
    + intros [|j] r' Hj Hl; simpl in Hl.
      * injection Hl as <-. congruence.
      * apply (Hmin j r'); [lia | assumption].
    + rewrite Hthrow. simpl. do 2 f_equal. lia.
  - exists 0%nat, r. repeat split; try assumption.
    + intros j r' Hj. lia.
    + do 2 f_equal. lia.
Qed.

End Orchestrator.

Import Orchestrator.

Lemma generateHouseImage_unfold w baseImage prompt n part :
  newGoogleGenAI w = Ok tt ->
  fileToPart w baseImage = Ok part ->
  generateHouseImage w baseImage prompt n
  = (try! responses :=
       promise_all (imap (generateContent w) (generationRequests part prompt n)) in
     try! finalImageUrls := extractAll 0 responses in
     if negb (length finalImageUrls =? n)%nat then
       Throw (ErrorObj "The number of generated images did not match the requested count.")
     else Ok finalImageUrls,
     map EvGenerate (generationRequests part prompt n)).
Proof.
  intros Hc Hp. unfold generateHouseImage. rewrite Hc. simpl. rewrite Hp.
  reflexivity.
Qed.

(** A successful orchestration went through the client and the encoding of
    the base image. *)
Lemma generateHouseImage_Ok_inv w baseImage prompt n urls :
  fst (generateHouseImage w baseImage prompt n) = Ok urls ->
  newGoogleGenAI w = Ok tt /\ exists part, fileToPart w baseImage = Ok part.
Proof.
  unfold generateHouseImage.
  destruct (newGoogleGenAI w) as [[]|e]; simpl; [|discriminate].
  destruct (fileToPart w baseImage) as [part|e]; simpl; [|discriminate].
  intros _. split; [reflexivity | now exists part].
Qed.

(** The part [fileToPart] returns is the encoded image, never a text. *)
Lemma fileToPart_is_image w baseImage part :
  fileToPart w baseImage = Ok part -> exists m d, part = ImagePart m d.
Proof.
  unfold fileToPart. destruct (readAsDataURL w baseImage) as [dataUrl|e];
    cbn [bind]; [|discriminate].
  destruct (Str.split "," dataUrl) as [|head [|payload rest]]; try discriminate.
  destruct (mime_match head) as [[|c m]|]; try discriminate.
  intros [= <-]. eauto.
Qed.

(** The promises of one orchestration, as [responseAt] reads them. *)
Lemma generationPromises_responseAt w part prompt n i p :
  imap (generateContent w) (generationRequests part prompt n) !! i = Some p ->
  (i < n)%nat /\ outcome p = responseAt w part prompt n i.
Proof.
  intros Hp. assert (Hi : (i < n)%nat).
  { apply lookup_lt_Some in Hp. now rewrite generationPromises_length in Hp. }
  rewrite generationPromises_lookup in Hp by exact Hi.
  injection Hp as <-. split; [exact Hi | reflexivity].
Qed.

(** C1. Orchestration count invariant: for every base image, prompt and
    variation count [n] (in particular every [n >= 1]), when
    [generateHouseImage] succeeds with [urls], the list has exactly [n]
    handles, the calls issued are the [n] requests in index order, and the
    handle at index [i] is the data URI extracted from the response to the
    request issued at index [i]. *)
Theorem orchestration_count_and_alignment
    (w : World) (baseImage : File) (prompt : string) (n : nat)
    (urls : list string) :
  fst (generateHouseImage w baseImage prompt n) = Ok urls ->
  length urls = n /\
  exists part,
    fileToPart w baseImage = Ok part /\
    snd (generateHouseImage w baseImage prompt n)
    = map EvGenerate (generationRequests part prompt n) /\
    forall i, (i < n)%nat ->
      exists response url,
        responseAt w part prompt n i = inr response /\
        extractImageUrl response = Some url /\
        urls !! i = Some url.
Proof.
  intros H. destruct (generateHouseImage_Ok_inv _ _ _ _ _ H) as (Hc & part & Hp).
  rewrite (generateHouseImage_unfold _ _ _ _ _ Hc Hp) in *. simpl in H.
  destruct (promise_all _) as [responses|e] eqn:Hall; simpl in H; [|discriminate].
  destruct (extractAll 0 responses) as [finalImageUrls|e] eqn:Hex; simpl in H;
    [|discriminate].
  destruct (length finalImageUrls =? n)%nat eqn:Hlen; simpl in H; [|discriminate].
  injection H as <-. apply Nat.eqb_eq in Hlen.
  apply promise_all_Ok in Hall. apply extractAll_Ok in Hex.
  split; [exact Hlen |]. exists part. split; [exact Hp |]. split; [reflexivity |].
  intros i Hi.
  pose proof (generationPromises_lookup w part prompt n i Hi) as Hpi.
  destruct (Forall2_lookup_l _ _ _ _ _ Hall Hpi) as (response & Hri & Hout).
  destruct (Forall2_lookup_l _ _ _ _ _ Hex Hri) as (url & Hui & Hurl).
  exists response, url. repeat split; assumption.
Qed.

Lemma orchestration_count_and_alignment_witness :
  fst (generateHouseImage (sampleWorld allImages) sampleFile "prompt" 3)
  = Ok ["data:image/png;base64,IMG0"; "data:image/png;base64,IMG1";
        "data:image/png;base64,IMG2"] /\
  length ["data:image/png;base64,IMG0"; "data:image/png;base64,IMG1";
          "data:image/png;base64,IMG2"] = 3%nat.
Proof.
  assert (H : fst (generateHouseImage (sampleWorld allImages) sampleFile "prompt" 3)
              = Ok ["data:image/png;base64,IMG0"; "data:image/png;base64,IMG1";
                    "data:image/png;base64,IMG2"]) by reflexivity.
  split; [exact H |].
  exact (proj1 (orchestration_count_and_alignment _ _ _ _ _ H)).
Defined.

(** The orchestration does succeed when the client is built, the base image
    is encoded and each of the [n] calls answers with an image. *)
Lemma generateHouseImage_succeeds w baseImage prompt n part :
  newGoogleGenAI w = Ok tt ->
  fileToPart w baseImage = Ok part ->
  (forall i, (i < n)%nat ->
     exists response url,
       responseAt w part prompt n i = inr response /\
       extractImageUrl response = Some url) ->
  exists urls, fst (generateHouseImage w baseImage prompt n) = Ok urls.
Proof.
  intros Hc Hp Hall.
  rewrite (generateHouseImage_unfold _ _ _ _ _ Hc Hp). simpl.
  set (ps := imap (generateContent w) (generationRequests part prompt n)).
  assert (Hps : Forall (fun p => exists r, outcome p = inr r) ps).
  { apply Forall_lookup. intros i p Hi.
    apply generationPromises_responseAt in Hi as [Hi ->].
    destruct (Hall i Hi) as (r & _ & Hr & _). now exists r. }
  pose proof (resolved_Forall2 _ Hps) as Hres.
  rewrite (proj2 (promise_all_Ok _ _) Hres). simpl.
  assert (Hurls : exists urls,
            Forall2 (fun r u => extractImageUrl r = Some u) (resolved ps) urls).
  { assert (Hev : Forall (fun r => exists u, extractImageUrl r = Some u) (resolved ps)).
    { apply Forall_lookup. intros i r Hi.
      destruct (Forall2_lookup_r _ _ _ _ _ Hres Hi) as (p & Hpi & Hout).
      apply generationPromises_responseAt in Hpi as [Hlt Heq].
      destruct (Hall i Hlt) as (r' & u & Hr' & Hu).
      rewrite Heq, Hr' in Hout. injection Hout as <-. now exists u. }
    clear Hres. induction Hev as [|r rs [u Hu] _ [us IH]].
    - exists []. constructor.
    - exists (u :: us). constructor; assumption. }
  destruct Hurls as [urls Hurls].
  rewrite (proj2 (extractAll_Ok 0 _ _) Hurls). simpl.
  assert (Hlen : length urls = n).
  { rewrite <- (Forall2_length _ _ _ Hurls), <- (Forall2_length _ _ _ Hres).
    apply generationPromises_length. }
  rewrite (proj2 (Nat.eqb_eq _ _) Hlen). simpl. now exists urls.
Qed.

(** C2. All-or-nothing failure: when the [n] calls of an orchestration all
    return a response and at least one response lacks an inline image,
    [generateHouseImage] fails with one error, which names the position
    (counted from 1) of the first response without an image; no list of
    handles is returned. *)
Theorem all_or_nothing_failure
    (w : World) (baseImage : File) (prompt : string) (n : nat)
    (part : RequestPart) :
  newGoogleGenAI w = Ok tt ->
  fileToPart w baseImage = Ok part ->
  (forall i, (i < n)%nat ->
     exists response, responseAt w part prompt n i = inr response) ->
  (exists i response, (i < n)%nat /\
     responseAt w part prompt n i = inr response /\
     extractImageUrl response = None) ->
  exists k response,
    (k < n)%nat /\
    responseAt w part prompt n k = inr response /\
    extractImageUrl response = None /\
    (forall j response', (j < k)%nat ->
       responseAt w part prompt n j = inr response' ->
       extractImageUrl response' <> None) /\
    fst (generateHouseImage w baseImage prompt n)
    = Throw (ErrorObj ("The AI model did not return an image for variation "
                       +:+ Str.of_nat (k + 1) +:+ ".")).
Proof.
  intros Hc Hp Hall (i0 & r0 & Hi0 & Hr0 & Hnone).
  rewrite (generateHouseImage_unfold _ _ _ _ _ Hc Hp). simpl.
  set (ps := imap (generateContent w) (generationRequests part prompt n)).
  assert (Hps : Forall (fun p => exists r, outcome p = inr r) ps).
  { apply Forall_lookup. intros i p Hi.
    apply generationPromises_responseAt in Hi as [Hi ->]. now apply Hall. }
  pose proof (resolved_Forall2 _ Hps) as Hres.
  rewrite (proj2 (promise_all_Ok _ _) Hres). simpl.
  assert (Hex : Exists (fun r => extractImageUrl r = None) (resolved ps)).
  { apply Exists_exists.
    pose proof (generationPromises_lookup w part prompt n i0 Hi0) as Hpi.
    destruct (Forall2_lookup_l _ _ _ _ _ Hres Hpi) as (r & Hri & Hout).
    exists r. split.
    - apply list_elem_of_lookup. now exists i0.
    - unfold responseAt in Hr0. rewrite Hr0 in Hout. now injection Hout as <-. }
  destruct (extractAll_Throw 0 _ Hex) as (k & r & Hk & Hr & Hmin & Hthrow).
  destruct (Forall2_lookup_r _ _ _ _ _ Hres Hk) as (p & Hpk & Hout).
  apply generationPromises_responseAt in Hpk as [Hlt Heq].
  exists k, r. split; [exact Hlt |]. split; [now rewrite <- Heq |].
  split; [exact Hr |]. split.
  - intros j r' Hj Hr'.
    pose proof (generationPromises_lookup w part prompt n j ltac:(lia)) as Hpj.
    destruct (Forall2_lookup_l _ _ _ _ _ Hres Hpj) as (r'' & Hrj & Houtj).
    unfold responseAt in Hr'. rewrite Hr' in Houtj. injection Houtj as <-.
    now apply (Hmin j r').
  - rewrite Hthrow. reflexivity.
Qed.

Lemma all_or_nothing_failure_witness :
  exists k response,
    (k < 3)%nat /\
    responseAt (sampleWorld secondWithoutImage) (ImagePart "image/png" "UE5H")
      "prompt" 3 k = inr response /\
    extractImageUrl response = None /\
    fst (generateHouseImage (sampleWorld secondWithoutImage) sampleFile "prompt" 3)
    = Throw (ErrorObj ("The AI model did not return an image for variation "
                       +:+ Str.of_nat (k + 1) +:+ ".")).
Proof.
  destruct (all_or_nothing_failure (sampleWorld secondWithoutImage) sampleFile
              "prompt" 3 (ImagePart "image/png" "UE5H") eq_refl eq_refl)
    as (k & response & Hk & Hresp & Hnone & Hmin & Hfail).
  - intros i Hi. unfold responseAt. simpl. unfold secondWithoutImage, allImages.
    destruct (i =? 1)%nat; eexists; reflexivity.
  - exists 1%nat, textOnlyResponse. split; [lia |]. split; reflexivity.
  - exists k, response. repeat split; assumption.
Defined.

(** In the sample world the failing variation is the second one. *)
Example all_or_nothing_failure_sample :
  fst (generateHouseImage (sampleWorld secondWithoutImage) sampleFile "prompt" 3)
  = Throw (ErrorObj "The AI model did not return an image for variation 2.").
Proof. reflexivity. Qed.

(** C5. Single-variation exemption: once the client is built and the base
    image encoded, an orchestration with variation count 1 issues one
    request, whose parts are the encoded base image and a text part whose
    text is the input prompt itself; with a variation count [n > 1] it
    issues [n] requests, each with the encoded base image and a text part
    whose text is the input prompt followed by the same fixed directive,
    which asks for a "unique, creative variation". *)
Theorem single_variation_exemption
    (w : World) (baseImage : File) (prompt : string) (part : RequestPart) :
  newGoogleGenAI w = Ok tt ->
  fileToPart w baseImage = Ok part ->
  snd (generateHouseImage w baseImage prompt 1)
  = [EvGenerate {| model := "gemini-2.5-flash-image";
                   contents := [part; TextPart prompt];
                   responseModalities := [IMAGE] |}] /\
  (forall n, (1 < n)%nat ->
     snd (generateHouseImage w baseImage prompt n)
     = replicate n
         (EvGenerate
            {| model := "gemini-2.5-flash-image";
               contents :=
                 [part;
                  TextPart (prompt +:+ "

**Variation Instruction:** Generate a unique, creative variation based on the above criteria. Show a different interpretation.")];
               responseModalities := [IMAGE] |})) /\
  (forall n request text,
     In (EvGenerate request) (snd (generateHouseImage w baseImage prompt n)) ->
     In (TextPart text) (contents request) ->
     text = (if (1 <? n)%nat
             then prompt +:+ "

**Variation Instruction:** Generate a unique, creative variation based on the above criteria. Show a different interpretation."
             else prompt)) /\
  substring_of "unique, creative variation" variationInstruction.
Proof.
  intros Hc Hp.
  assert (Hev : forall n,
            snd (generateHouseImage w baseImage prompt n)
            = replicate n
                (EvGenerate
                   {| model := "gemini-2.5-flash-image";
                      contents := [part; TextPart (variationPrompt prompt n)];
                      responseModalities := [IMAGE] |})).
  { intros n. rewrite (generateHouseImage_unfold _ _ _ _ _ Hc Hp). cbn [snd].
    rewrite generationRequests_replicate. unfold request.
    generalize ({| model := "gemini-2.5-flash-image";
                   contents := [part; TextPart (variationPrompt prompt n)];
                   responseModalities := [IMAGE] |}) as r.
    intros r. induction n as [|n IH]; [reflexivity |].
    cbn. now rewrite <- IH. }
  split; [|split; [|split]].
  - rewrite Hev. reflexivity.
  - intros n Hn. rewrite Hev. unfold variationPrompt.
    rewrite (proj2 (Nat.ltb_lt 1 n) Hn). reflexivity.
  - intros n req text Hin Htext. rewrite Hev in Hin.
    apply (proj2 (list_elem_of_In _ _)), elem_of_replicate_inv in Hin.
    injection Hin as ->. cbn [contents] in Htext.
    destruct Htext as [Ht|[Ht|[]]].
    + destruct (fileToPart_is_image _ _ _ Hp) as (m & d & ->). discriminate Ht.
    + injection Ht as <-. reflexivity.
  - apply includes_spec. vm_compute. reflexivity.
Qed.

Lemma single_variation_exemption_witness :
  snd (generateHouseImage (sampleWorld allImages) sampleFile "prompt" 1)
  = [EvGenerate {| model := "gemini-2.5-flash-image";
                   contents := [ImagePart "image/png" "UE5H"; TextPart "prompt"];
                   responseModalities := [IMAGE] |}] /\
  snd (generateHouseImage (sampleWorld allImages) sampleFile "prompt" 3)
  = replicate 3
      (EvGenerate
         {| model := "gemini-2.5-flash-image";
            contents :=
              [ImagePart "image/png" "UE5H";
               TextPart ("prompt" +:+ "

**Variation Instruction:** Generate a unique, creative variation based on the above criteria. Show a different interpretation.")];
            responseModalities := [IMAGE] |}).
Proof.
  pose proof (single_variation_exemption (sampleWorld allImages) sampleFile
                "prompt" (ImagePart "image/png" "UE5H") eq_refl eq_refl)
    as (H1 & Hn & _).
  split; [exact H1 | apply Hn; lia].
Defined.

(* ===================================================================== *)
(** * 10. The component: handlers and reachable states *)
(* ===================================================================== *)

(** C6 (the guard). The key guard accepts every name that [in] finds on the
    default record, which includes the names inherited from
    [Object.prototype]: for the key "toString" the update is applied and
    the record gains a property, instead of being returned unchanged. *)
Theorem key_guard_accepts_inherited_names :
  ~ In "toString" (map field_name all_fields) /\
  isCustomizationKey "toString" = true /\
  options initialState !! "toString" = None /\
  options (handleOptionChange "toString" "x" initialState) !! "toString" = Some "x" /\
  handleOptionChange "toString" "x" initialState <> initialState.
Proof.
  split; [|split; [|split; [|split]]].
  - simpl. intros H. repeat (destruct H as [H|H]; [discriminate |]). exact H.
  - reflexivity.
  - reflexivity.
  - reflexivity.
  - intros H. apply (f_equal (fun s => options s !! "toString")) in H.
    vm_compute in H. discriminate.
Qed.

(** The key guard on the names that are not inherited: a field name is
    accepted, any other name is rejected. *)
Lemma isCustomizationKey_spec (key : string) :
  ~ In key object_prototype_keys ->
  isCustomizationKey key = true <-> In key (map field_name all_fields).
Proof.
  intros Hproto. unfold isCustomizationKey, js_in.
  rewrite orb_true_iff, !bool_decide_eq_true.
  split.
  - intros [[v Hv]|Hin]; [|exfalso; apply Hproto; now apply list_elem_of_In].
    unfold initialOptions in Hv. simpl.
    repeat (rewrite lookup_insert in Hv; case_decide; [subst; tauto |]).
    rewrite lookup_empty in Hv. discriminate.
  - intros Hin. left. simpl in Hin.
    repeat (destruct Hin as [<-|Hin]; [eexists; reflexivity |]). destruct Hin.
Qed.

(** An update under one of the eight field names replaces that field and
    leaves every other property as it was. *)
Lemma handleOptionChange_field (f : Field) (value : string) (s : AppState) :
  options (handleOptionChange (field_name f) value s) !! field_name f = Some value /\
  (forall key, key <> field_name f ->
     options (handleOptionChange (field_name f) value s) !! key = options s !! key) /\
  handleOptionChange (field_name f) value s
  = setOptions (<[field_name f := value]> (options s)) s.
Proof.
  assert (Hk : isCustomizationKey (field_name f) = true) by (destruct f; reflexivity).
  unfold handleOptionChange. rewrite Hk. simpl.
  split; [apply lookup_insert_eq |]. split; [|reflexivity].
  intros key Hne. now apply lookup_insert_ne.
Qed.

(** An update under a name that is neither a field name nor inherited is
    ignored. *)
Lemma handleOptionChange_rejected (name value : string) (s : AppState) :
  ~ In name (map field_name all_fields) ->
  ~ In name object_prototype_keys ->
  handleOptionChange name value s = s.
Proof.
  intros Hf Hp. unfold handleOptionChange.
  destruct (isCustomizationKey name) eqn:E; [|reflexivity].
  apply (isCustomizationKey_spec name Hp) in E. contradiction.
Qed.

(** C7. Precondition failure: in every state without a base image,
    [handleGenerate] records the precondition error, changes nothing else,
    and issues no event at all (so no call to the generator), whatever the
    outside world would answer. *)
Theorem handleGenerate_requires_base_image (w : World) (s : AppState) :
  baseImageFile s = None ->
  handleGenerate w s
  = (setError (Some "Base image is not loaded. Cannot generate a new design.") s, [])
  /\ filter is_generate (snd (handleGenerate w s)) = [].
Proof.
  intros H. unfold handleGenerate. rewrite H. split; reflexivity.
Qed.

Lemma handleGenerate_requires_base_image_witness :
  handleGenerate (sampleWorld allImages) initialState
  = (setError (Some "Base image is not loaded. Cannot generate a new design.")
       initialState, []).
Proof.
  exact (proj1 (handleGenerate_requires_base_image (sampleWorld allImages)
                  initialState eq_refl)).
Defined.

Module Component.

Lemma fetchBaseImage_results (w : World) (s : AppState) :
  generatedImageUrls (fetchBaseImage w s) = generatedImageUrls s /\
  (baseImageFile (fetchBaseImage w s) = None -> baseImageFile s = None).
Proof.
  unfold fetchBaseImage. destruct (probe w pathsToTry) as [path res|msg|].
  - destruct (blob res) as [[blobType bytes]|e]; simpl;
      (split; [reflexivity | first [tauto | intros H; discriminate H]]).
  - simpl. split; [reflexivity | tauto].
  - simpl. split; [reflexivity | tauto].
Qed.

Lemma handleOptionChange_frame (name value : string) (s : AppState) :
  generatedImageUrls (handleOptionChange name value s) = generatedImageUrls s /\
  baseImageFile (handleOptionChange name value s) = baseImageFile s.
Proof.
  unfold handleOptionChange. destruct (isCustomizationKey name); split; reflexivity.
Qed.

(** What [handleGenerate] leaves behind, case by case. *)
Lemma handleGenerate_cases (w : World) (s : AppState) :
  (baseImageFile s = None /\
   fst (handleGenerate w s)
   = setError (Some "Base image is not loaded. Cannot generate a new design.") s) \/
  (exists file urls,
     baseImageFile s = Some file /\
     fst (generateHouseImage w file (buildPrompt (options s)) (numberOfVariations s))
     = Ok urls /\
     fst (handleGenerate w s)
     = setIsLoading false
         (setGeneratedImageUrls urls (setError None (setIsLoading true s)))) \/
  (exists file err,
     baseImageFile s = Some file /\
     fst (generateHouseImage w file (buildPrompt (options s)) (numberOfVariations s))
     = Throw err /\
     fst (handleGenerate w s)
     = setIsLoading false
         (setGeneratedImageUrls []
            (setError (Some ("Failed to generate the image. "
                             +:+ messageOr unknownError err))
               (setError None (setIsLoading true s))))).
Proof.
  unfold handleGenerate. destruct (baseImageFile s) as [file|]; [|left; tauto].
  right.
  destruct (generateHouseImage w file (buildPrompt (options s)) (numberOfVariations s))
    as [[urls|err] calls] eqn:E.
  - left. exists file, urls. rewrite E. repeat split.
  - right. exists file, err. rewrite E. repeat split.
Qed.

Lemma handleGenerateBaseViews_base_image (w : World) (s : AppState) :
  baseImageFile (fst (handleGenerateBaseViews w s)) = baseImageFile s /\
  (baseImageFile s = None ->
   generatedImageUrls (fst (handleGenerateBaseViews w s)) = generatedImageUrls s).
Proof.
  unfold handleGenerateBaseViews. destruct (baseImageFile s) as [file|] eqn:E.
  - destruct (generateBaseModelViews w file) as [[url|err] calls]; simpl;
      (split; [exact E | discriminate]).
  - simpl. split; [exact E | reflexivity].
Qed.

Lemma step_preserves (s : AppState) (a : Action) :
  results_need_base_image s -> results_need_base_image (fst (step s a)).
Proof.
  unfold results_need_base_image. intros Inv. destruct a as [w|name value|v|v|w|w|]; simpl.
  - destruct (fetchBaseImage_results w s) as [-> Hb]. intros H. apply Inv, Hb, H.
  - destruct (handleOptionChange_frame name value s) as [-> ->]. exact Inv.
  - exact Inv.
  - exact Inv.
  - destruct (handleGenerate_cases w s)
      as [[Hb ->]|[(file & urls & Hb & _ & ->)|(file & err & Hb & _ & ->)]]; simpl.
    + exact Inv.
    + rewrite Hb. discriminate.
    + reflexivity.
  - destruct (handleGenerateBaseViews_base_image w s) as [-> Hu].
    intros H. rewrite (Hu H). apply Inv, H.
  - reflexivity.
Qed.

Lemma run_preserves (actions : list Action) (s : AppState) :
  results_need_base_image s -> results_need_base_image (fst (run s actions)).
Proof.
  revert s; induction actions as [|a actions IH]; intros s Inv; [exact Inv |].
  simpl. destruct (step s a) as [s1 ev1] eqn:E1.
  destruct (run s1 actions) as [s2 ev2] eqn:E2. simpl.
  change s2 with (fst (s2, ev2)). rewrite <- E2. apply IH.
  change s1 with (fst (s1, ev1)). rewrite <- E1. now apply step_preserves.
Qed.

(** In every reachable state, results on display imply a loaded base
    image. *)
Lemma reachable_results_need_base_image (s : AppState) :
  reachable s -> results_need_base_image s.
Proof.
  intros [actions <-]. apply run_preserves. intros _. reflexivity.
Qed.

(** Taken alone, the precondition branch does not touch the results. *)
Lemma precondition_branch_keeps_results (w : World) (s : AppState) :
  baseImageFile s = None ->
  generatedImageUrls (fst (handleGenerate w s)) = generatedImageUrls s.
Proof. intros H. unfold handleGenerate. now rewrite H. Qed.

(** A generation attempt fails exactly when it leaves an error behind. *)
Lemma handleGenerate_success_no_error (w : World) (s : AppState) file urls :
  baseImageFile s = Some file ->
  fst (generateHouseImage w file (buildPrompt (options s)) (numberOfVariations s))
  = Ok urls ->
  error (fst (handleGenerate w s)) = None /\
  generatedImageUrls (fst (handleGenerate w s)) = urls.
Proof.
  intros Hb Hok.
  destruct (handleGenerate_cases w s)
    as [[Hb' _]|[(f & u & Hb' & Hg & ->)|(f & e & Hb' & Hg & _)]];
    try congruence.
  assert (f = file) as -> by congruence. rewrite Hok in Hg. injection Hg as <-.
  split; reflexivity.
Qed.

(** The budget is carried through a generation untouched and unread. *)
Lemma handleGenerate_setBudget (w : World) (b : Z) (s : AppState) :
  handleGenerate w (setBudget b s)
  = (setBudget b (fst (handleGenerate w s)), snd (handleGenerate w s)).
Proof.
  unfold handleGenerate. simpl. destruct (baseImageFile s) as [file|]; [|reflexivity].
  destruct (generateHouseImage w file (buildPrompt (options s)) (numberOfVariations s))
    as [[urls|err] calls]; reflexivity.
Qed.

Lemma budget_action_or_not (a : Action) :
  (exists v, a = ActSetBudget v) \/ (forall v, a <> ActSetBudget v).
Proof.
  destruct a as [w|name value|v|v|w|w|];
    first [left; now exists v | right; intros v'; discriminate].
Qed.

(** Every handler carries the budget through untouched and unread. *)
Lemma step_setBudget (a : Action) (b : Z) (s : AppState) :
  (forall v, a <> ActSetBudget v) ->
  step (setBudget b s) a = (setBudget b (fst (step s a)), snd (step s a)).
Proof.
  intros Ha. destruct a as [w|name value|v|v|w|w|]; simpl.
  - f_equal. unfold fetchBaseImage.
    destruct (probe w pathsToTry) as [path res|msg|]; try reflexivity.
    destruct (blob res) as [[blobType bytes]|e]; reflexivity.
  - f_equal. unfold handleOptionChange.
    destruct (isCustomizationKey name); reflexivity.
  - now destruct (Ha v).
  - reflexivity.
  - apply handleGenerate_setBudget.
  - unfold handleGenerateBaseViews. simpl.
    destruct (baseImageFile s) as [file|]; [|reflexivity].
    destruct (generateBaseModelViews w file) as [[url|err] calls]; reflexivity.
  - reflexivity.
Qed.

Lemma step_same_but_budget (s1 s2 : AppState) (a1 a2 : Action) :
  same_but_budget s1 s2 ->
  same_but_budget_action a1 a2 ->
  same_but_budget (fst (step s1 a1)) (fst (step s2 a2)) /\
  snd (step s1 a1) = snd (step s2 a2).
Proof.
  unfold same_but_budget. intros Hs Ha. rewrite Hs.
  generalize (budget s2) as b; intros b. clear Hs s2.
  destruct Ha as [v1 v2|a].
  - simpl. split; reflexivity.
  - destruct (budget_action_or_not a) as [[v ->]|Hn].
    + simpl. split; reflexivity.
    + rewrite (step_setBudget a b s1 Hn). simpl. split; reflexivity.
Qed.

(** Noninterference of the budget over whole runs: runs that differ only
    in the budgets chosen on the slider issue the same events (so the same
    requests, with the same prompts) and end in states that differ at most
    in the budget. *)
Lemma run_budget_noninterference (actions1 actions2 : list Action) :
  Forall2 same_but_budget_action actions1 actions2 ->
  forall s1 s2, same_but_budget s1 s2 ->
  same_but_budget (fst (run s1 actions1)) (fst (run s2 actions2)) /\
  snd (run s1 actions1) = snd (run s2 actions2).
Proof.
  induction 1 as [|a1 a2 rest1 rest2 Ha _ IH]; intros s1 s2 Hs.
  - split; [exact Hs | reflexivity].
  - simpl. destruct (step_same_but_budget s1 s2 a1 a2 Hs Ha) as [Hs' Hev].
    destruct (step s1 a1) as [t1 ev1], (step s2 a2) as [t2 ev2]. simpl in *.
    destruct (IH t1 t2 Hs') as [Hs'' Hev'].
    destruct (run t1 rest1) as [u1 evs1], (run t2 rest2) as [u2 evs2]. simpl in *.
    split; [exact Hs'' | congruence].
Qed.

End Component.

Import Component.

(** C8. Results are cleared on failure: in every reachable state of the
    component, whenever [handleGenerate] ends in failure (it leaves an
    error message behind, be it the precondition error or an error of the
    orchestration), no previously generated result handle remains on
    display. *)
Theorem failed_generation_clears_results (w : World) (s : AppState) :
  reachable s ->
  is_Some (error (fst (handleGenerate w s))) ->
  generatedImageUrls (fst (handleGenerate w s)) = [].
Proof.
  intros Hreach Hfail.
  destruct (handleGenerate_cases w s)
    as [[Hb Heq]|[(file & urls & Hb & _ & Heq)|(file & err & Hb & _ & Heq)]];
    rewrite Heq in *; simpl in *.
  - now apply (reachable_results_need_base_image s Hreach).
  - destruct Hfail as [msg Hmsg]. discriminate.
  - reflexivity.
Qed.

Lemma failed_generation_clears_results_witness :
  length (generatedImageUrls sampleState) = 3%nat /\
  error (fst (handleGenerate (sampleWorld secondWithoutImage) sampleState))
  = Some "Failed to generate the image. The AI model did not return an image for variation 2." /\
  generatedImageUrls (fst (handleGenerate (sampleWorld secondWithoutImage) sampleState))
  = [].
Proof.
  split; [reflexivity |]. split; [reflexivity |].
  apply (failed_generation_clears_results (sampleWorld secondWithoutImage) sampleState).
  - exists sampleActions. reflexivity.
  - eexists. reflexivity.
Defined.

(** C9. The budget does not influence the prompt: for every state and every
    two budget values (in particular any two in [350000, 2000000]),
    [buildPrompt] renders the same string, and a generation started from
    either state issues the same events. *)
Theorem budget_noninterference (s : AppState) (b1 b2 : Z) :
  buildPrompt (options (setBudget b1 s)) = buildPrompt (options (setBudget b2 s)) /\
  forall w,
    snd (handleGenerate w (setBudget b1 s)) = snd (handleGenerate w (setBudget b2 s)).
Proof.
  split; [reflexivity |]. intros w.
  now rewrite !handleGenerate_setBudget.
Qed.

(** C10. Reset: [handleReset] restores the default options record and
    clears the generated result handles and the error; the budget, the
    selected number of variations and the loaded base image (and its URL
    and the loading flag) stay as they were. *)
Theorem handleReset_frame (s : AppState) :
  options (fst (handleReset s)) = initialOptions /\
  generatedImageUrls (fst (handleReset s)) = [] /\
  error (fst (handleReset s)) = None /\
  budget (fst (handleReset s)) = budget s /\
  numberOfVariations (fst (handleReset s)) = numberOfVariations s /\
  baseImageFile (fst (handleReset s)) = baseImageFile s /\
  baseImageUrl (fst (handleReset s)) = baseImageUrl s /\
  isLoading (fst (handleReset s)) = isLoading s.
Proof. repeat split. Qed.

(* ===================================================================== *)
(** * 11. Further properties of the prompt builder *)
(* ===================================================================== *)

Module PromptMore.

Ltac skip_furniture_piece :=
  rewrite includes_skip by (first [ assumption | vm_compute; reflexivity ]).

Lemma domain_no_furniture_heading (f : Field) (v : string) :
  In v (domain f) -> may_start furnitureHeading v = false.
Proof.
  destruct f; simpl; intros H;
    repeat (destruct H as [<-|H]; [vm_compute; reflexivity |]);
    destruct H.
Qed.

Lemma well_typed_no_furniture_heading (options : gmap string string) (f : Field) :
  well_typed options ->
  may_start furnitureHeading (tpl (options !! field_name f)) = false.
Proof.
  intros H. destruct (H f) as (v & -> & Hv). simpl.
  apply (domain_no_furniture_heading f v Hv).
Qed.

Lemma landscapingPrompt_no_furniture_heading
    (options : gmap string string) (rest : string) :
  well_typed options ->
  includes furnitureHeading (landscapingPrompt options +:+ rest)
  = includes furnitureHeading rest.
Proof.
  intros H. pose proof (well_typed_no_furniture_heading options landscaping H) as Hl.
  simpl in Hl. unfold landscapingPrompt, landscapingClause.
  destruct (strict_ne (options !! "landscaping") "None"); [|reflexivity].
  rewrite !append_assoc. repeat skip_furniture_piece. reflexivity.
Qed.

Lemma no_furniture_heading_when_None (options : gmap string string) :
  well_typed options ->
  options !! "furniture" = Some "None" ->
  includes furnitureHeading (buildPrompt options) = false.
Proof.
  intros H HNone.
  pose proof (well_typed_no_furniture_heading options colorTheme H) as H1.
  pose proof (well_typed_no_furniture_heading options doors H) as H2.
  pose proof (well_typed_no_furniture_heading options windows H) as H3.
  pose proof (well_typed_no_furniture_heading options frontYard H) as H4.
  pose proof (well_typed_no_furniture_heading options roof H) as H5.
  pose proof (well_typed_no_furniture_heading options outdoorFeatures H) as H6.
  simpl in H1, H2, H3, H4, H5, H6.
  unfold buildPrompt, furniturePrompt.
  rewrite HNone, strict_ne_same, append_nil_l.
  repeat skip_furniture_piece.
  rewrite landscapingPrompt_no_furniture_heading by assumption.
  repeat skip_furniture_piece.
  vm_compute; reflexivity.
Qed.

Lemma furnitureClause_heading (v : string) :
  substring_of furnitureHeading (furnitureClause v).
Proof.
  unfold furnitureClause, furnitureHeading.
  exists "
- ", (" Add a '" +:+ v +:+ "'. Place it naturally within any visible front yard or patio area. The furniture must be weather-resistant, complement the overall design, and be appropriate for a tropical climate.").
  reflexivity.
Qed.

Lemma furniture_clause_when_selected (options : gmap string string) (v : string) :
  options !! "furniture" = Some v ->
  v <> "None" ->
  substring_of (furnitureClause v) (buildPrompt options).
Proof.
  intros Hv Hne. unfold buildPrompt, furniturePrompt.
  rewrite Hv, strict_ne_other by congruence.
  cbn [tpl].
  do 15 apply substring_of_app_r. apply substring_of_app_l, substring_of_refl.
Qed.

Lemma ends_with_split (s t : string) :
  ends_with s t = true -> exists a, t = a +:+ s.
Proof.
  induction t as [|x t IH]; simpl; intros H.
  - rewrite orb_false_r in H. apply bool_decide_eq_true in H as ->. now exists "".
  - apply orb_true_iff in H as [H|H].
    + apply bool_decide_eq_true in H as ->. now exists "".
    + destruct (IH H) as [a ->]. now exists (String x a).
Qed.

(** A sentence whose opening ends the piece before an interpolated value
    and whose closing starts the piece after it. *)
Lemma substring_around (s0 v s1 before after rest : string) :
  ends_with s0 before = true ->
  String.prefix s1 after = true ->
  substring_of (s0 +:+ v +:+ s1) (before +:+ v +:+ after +:+ rest).
Proof.
  intros H0 H1. destruct (ends_with_split _ _ H0) as [a ->].
  destruct (prefix_split _ _ H1) as [b ->].
  exists a, (b +:+ rest). now rewrite !append_assoc.
Qed.

Lemma substring_around_last (s0 v s1 before after : string) :
  ends_with s0 before = true ->
  String.prefix s1 after = true ->
  substring_of (s0 +:+ v +:+ s1) (before +:+ v +:+ after).
Proof.
  intros H0 H1. rewrite <- (append_nil_r after).
  now apply substring_around.
Qed.

Ltac embedded_here :=
  repeat first
    [ apply substring_around; [vm_compute; reflexivity | vm_compute; reflexivity]
    | apply substring_of_app_r ].

Lemma peel (p x y : string) : p +:+ x = p +:+ y -> x = y.
Proof.
  induction p as [|c p IH]; [trivial |].
  rewrite !append_cons. intros [= H]. now apply IH.
Qed.

(** Incompatible strings stay different whatever follows them. *)
Lemma incompatible_append (a b x y : string) :
  compatible a b = false -> a +:+ x <> b +:+ y.
Proof.
  unfold compatible. revert b; induction a as [|c a IH]; intros b H.
  - rewrite prefix_nil in H. discriminate.
  - destruct b as [|d b].
    + discriminate.
    + rewrite !prefix_cons in H. rewrite !append_cons. intros [= Hc Hab].
      subst d. destruct (ascii_dec c c); [|congruence].
      now apply (IH b).
Qed.

Lemma distinguishes_spec (g : string -> string) (sep : string)
    (dom : list string) (v v' : string) :
  distinguishes g sep dom = true ->
  In v dom -> In v' dom -> v <> v' ->
  compatible (g v +:+ sep) (g v' +:+ sep) = false.
Proof.
  unfold distinguishes. rewrite forallb_forall. intros H Hv Hv' Hne.
  specialize (H v Hv). rewrite forallb_forall in H. specialize (H v' Hv').
  apply orb_true_iff in H as [H|H].
  - apply bool_decide_eq_true in H. contradiction.
  - now apply negb_true_iff in H.
Qed.

(** Where the renderings are distinguished, equal texts have equal
    selections and equal continuations. *)
Lemma decide_step (g : string -> string) (sep : string) (dom : list string)
    (v v' X Y : string) :
  distinguishes g sep dom = true ->
  In v dom -> In v' dom ->
  g v +:+ sep +:+ X = g v' +:+ sep +:+ Y ->
  v = v' /\ X = Y.
Proof.
  intros Hd Hv Hv' H. destruct (decide (v = v')) as [<-|Hne].
  - split; [reflexivity |]. now apply peel, peel in H.
  - exfalso. rewrite <- !append_assoc in H.
    apply (incompatible_append _ _ _ _ (distinguishes_spec g sep dom v v' Hd Hv Hv' Hne) H).
Qed.

Lemma landscapingPrompt_rendering (options : gmap string string) (v : string) :
  options !! "landscaping" = Some v ->
  landscapingPrompt options = rendering landscaping v.
Proof. intros H. unfold landscapingPrompt. now rewrite H. Qed.

Lemma furniturePrompt_rendering (options : gmap string string) (v : string) :
  options !! "furniture" = Some v ->
  furniturePrompt options = rendering furniture v.
Proof. intros H. unfold furniturePrompt. now rewrite H. Qed.

(** Settles the selection of field [f] at the head of the equation [H]. *)
Ltac settle f v1 v2 Hin1 Hin2 H :=
  match type of H with
  | _ +:+ ?sep +:+ ?X = _ +:+ _ +:+ ?Y =>
      let Hd := fresh "Hd" in
      assert (Hd : distinguishes (rendering f) sep (domain f) = true)
        by (vm_compute; reflexivity);
      let E := fresh "E" in
      let H' := fresh "H" in
      destruct (decide_step (rendering f) sep (domain f) v1 v2 X Y Hd Hin1 Hin2 H)
        as [E H'];
      clear H Hd; rename H' into H
  end.

End PromptMore.

Import PromptMore.

(** X1. Sentinel suppression for the furniture: for every well-typed
    options record, when furniture is "None" the rendered prompt contains
    no furniture clause (neither its heading nor the clause rendered for
    any value); when furniture is any other value [v], the prompt contains
    the furniture clause rendered for [v], which carries [v] verbatim. *)
Theorem furniture_sentinel_suppression (options : gmap string string) :
  well_typed options ->
  (options !! "furniture" = Some "None" ->
   ~ substring_of furnitureHeading (buildPrompt options) /\
   forall v, ~ substring_of (furnitureClause v) (buildPrompt options)) /\
  (forall v, options !! "furniture" = Some v -> v <> "None" ->
   substring_of (furnitureClause v) (buildPrompt options) /\
   substring_of v (furnitureClause v)).
Proof.
  intros H. split.
  - intros HNone.
    assert (Hno : ~ substring_of furnitureHeading (buildPrompt options)).
    { apply not_includes_spec. now apply no_furniture_heading_when_None. }
    split; [exact Hno |]. intros v Hv. apply Hno.
    apply (substring_of_trans _ _ _ (furnitureClause_heading v) Hv).
  - intros v Hv Hne. split.
    + now apply furniture_clause_when_selected.
    + unfold furnitureClause.
      apply substring_of_app_r, substring_of_app_l, substring_of_refl.
Qed.

Lemma furniture_sentinel_suppression_witness :
  (~ substring_of furnitureHeading (buildPrompt initialOptions)) /\
  substring_of (furnitureClause "Wicker Sofa Set")
    (buildPrompt (<["furniture" := "Wicker Sofa Set"]> initialOptions)).
Proof.
  split.
  - apply (proj1 (furniture_sentinel_suppression initialOptions
                    initialOptions_well_typed)).
    reflexivity.
  - assert (Hwt : well_typed (<["furniture" := "Wicker Sofa Set"]> initialOptions)).
    { intros f; destruct f; eexists; (split; [reflexivity | simpl; tauto]). }
    apply (proj2 (furniture_sentinel_suppression _ Hwt) "Wicker Sofa Set").
    + reflexivity.
    + discriminate.
Defined.

(** X2. The selected values are embedded verbatim: for every options
    record and every field, the prompt contains the field's sentence (for
    landscaping and furniture: its clause) rendered for the value the
    record holds, provided that, for landscaping and furniture, that value
    is not the sentinel "None"; and the sentence carries the value. *)
Theorem selected_values_are_embedded
    (options : gmap string string) (f : Field) :
  ((f = landscaping \/ f = furniture) ->
   options !! field_name f <> Some "None") ->
  substring_of (selectionSentence f (tpl (options !! field_name f)))
    (buildPrompt options) /\
  substring_of (tpl (options !! field_name f))
    (selectionSentence f (tpl (options !! field_name f))).
Proof.
  intros Hopt. split.
  - unfold buildPrompt.
    destruct f; cbn [selectionSentence field_name].
    5: { unfold landscapingPrompt.
         rewrite strict_ne_other by (apply Hopt; now left).
         do 9 apply substring_of_app_r.
         apply substring_of_app_l, substring_of_refl. }
    7: { unfold furniturePrompt.
         rewrite strict_ne_other by (apply Hopt; now right).
         do 15 apply substring_of_app_r.
         apply substring_of_app_l, substring_of_refl. }
    all: embedded_here.
  - destruct f; cbn [selectionSentence]; unfold landscapingClause, furnitureClause;
      apply substring_of_app_r, substring_of_app_l, substring_of_refl.
Qed.

Lemma selected_values_are_embedded_witness :
  substring_of "- **Doors:** Change the doors to 'Glass Sliding'."
    (buildPrompt initialOptions) /\
  substring_of (furnitureClause "Wicker Sofa Set")
    (buildPrompt (<["furniture" := "Wicker Sofa Set"]> initialOptions)).
Proof.
  split.
  - refine (proj1 (selected_values_are_embedded initialOptions doors _)).
    intros [H|H]; discriminate H.
  - refine (proj1 (selected_values_are_embedded
                     (<["furniture" := "Wicker Sofa Set"]> initialOptions)
                     furniture _)).
    intros _ H. vm_compute in H. discriminate H.
Defined.

(** X3. The prompt determines the selection: two well-typed options records
    that render to the same prompt hold the same value in each of the
    eight fields. *)
Theorem prompt_determines_selection (options1 options2 : gmap string string) :
  well_typed options1 ->
  well_typed options2 ->
  buildPrompt options1 = buildPrompt options2 ->
  forall f, options1 !! field_name f = options2 !! field_name f.
Proof.
  intros W1 W2 H.
  destruct (W1 colorTheme) as (c1 & Lc1 & Ic1), (W2 colorTheme) as (c2 & Lc2 & Ic2).
  destruct (W1 doors) as (d1 & Ld1 & Id1), (W2 doors) as (d2 & Ld2 & Id2).
  destruct (W1 windows) as (w1 & Lw1 & Iw1), (W2 windows) as (w2 & Lw2 & Iw2).
  destruct (W1 frontYard) as (y1 & Ly1 & Iy1), (W2 frontYard) as (y2 & Ly2 & Iy2).
  destruct (W1 landscaping) as (l1 & Ll1 & Il1), (W2 landscaping) as (l2 & Ll2 & Il2).
  destruct (W1 outdoorFeatures) as (o1 & Lo1 & Io1), (W2 outdoorFeatures) as (o2 & Lo2 & Io2).
  destruct (W1 roof) as (r1 & Lr1 & Ir1), (W2 roof) as (r2 & Lr2 & Ir2).
  destruct (W1 furniture) as (f1 & Lf1 & If1), (W2 furniture) as (f2 & Lf2 & If2).
  cbn [field_name] in *.
  unfold buildPrompt in H.
  rewrite (landscapingPrompt_rendering _ _ Ll1), (landscapingPrompt_rendering _ _ Ll2),
    (furniturePrompt_rendering _ _ Lf1), (furniturePrompt_rendering _ _ Lf2),
    Lc1, Lc2, Ld1, Ld2, Lw1, Lw2, Ly1, Ly2, Lo1, Lo2, Lr1, Lr2 in H.
  cbn [tpl] in H.
  apply peel in H.
  settle colorTheme c1 c2 Ic1 Ic2 H.
  settle doors d1 d2 Id1 Id2 H.
  settle windows w1 w2 Iw1 Iw2 H.
  settle frontYard y1 y2 Iy1 Iy2 H.
  settle landscaping l1 l2 Il1 Il2 H.
  settle roof r1 r2 Ir1 Ir2 H.
  settle outdoorFeatures o1 o2 Io1 Io2 H.
  rewrite <- (append_nil_r (_ +:+ _)) in H at 1.
  rewrite <- (append_nil_r (rendering furniture f2 +:+ _)) in H.
  rewrite !append_assoc in H.
  settle furniture f1 f2 If1 If2 H.
  intros f; destruct f; cbn [field_name]; congruence.
Qed.

Lemma prompt_determines_selection_witness :
  (<["toString" := "x"]> initialOptions) !! "roof" = initialOptions !! "roof".
Proof.
  refine (prompt_determines_selection (<["toString" := "x"]> initialOptions)
            initialOptions _ initialOptions_well_typed _ roof).
  - intros f; destruct f; eexists; (split; [reflexivity | simpl; tauto]).
  - reflexivity.
Defined.

(* ===================================================================== *)
(** * 12. Further properties of the service *)
(* ===================================================================== *)

Module Service.

Lemma split_no_separator (c : ascii) (s : string) :
  occurs c s = false -> split c s = [s].
Proof.
  induction s as [|x r IH]; [reflexivity |].
  simpl. intros H. apply orb_false_iff in H as [Hx Hr].
  rewrite Hx, (IH Hr). reflexivity.
Qed.

Lemma split_at_separator (c : ascii) (a b : string) :
  occurs c a = false ->
  split c (a +:+ String c b) = a :: split c b.
Proof.
  induction a as [|x r IH]; intros H.
  - rewrite append_nil_l. simpl. now rewrite Ascii.eqb_refl.
  - simpl in H. apply orb_false_iff in H as [Hx Hr].
    rewrite append_cons. simpl. rewrite Hx, (IH Hr). reflexivity.
Qed.


Lemma split_nonempty (c : ascii) (s : string) : split c s <> [].
Proof.
  destruct s as [|x r]; simpl; [discriminate |].
  destruct (Ascii.eqb x c); [discriminate |].
  destruct (split c r); discriminate.
Qed.

Lemma occurs_append (c : ascii) (a b : string) :
  occurs c (a +:+ b) = occurs c a || occurs c b.
Proof.
  induction a as [|x r IH]; [reflexivity |].
  rewrite append_cons. simpl. rewrite IH. apply orb_assoc.
Qed.

Lemma lazy_to_semicolon_cons (c : ascii) (r : string) :
  lazy_to_semicolon (String c r)
  = if Ascii.eqb c ";" then Some EmptyString
    else if Ascii.eqb c "010" || Ascii.eqb c "013"
            || String.prefix lineSeparator (String c r)
            || String.prefix paragraphSeparator (String c r) then None
    else option_map (String c) (lazy_to_semicolon r).
Proof. reflexivity. Qed.

(** A separator without a semicolon that does not begin [a] does not begin
    [a] followed by a semicolon either. *)
Lemma prefix_before_semicolon (sep a rest : string) :
  occurs ";" sep = false ->
  String.prefix sep a = false ->
  String.prefix sep (a +:+ String ";" rest) = false.
Proof.
  revert a; induction sep as [|y sep IH]; intros a Hsep Ha.
  - rewrite prefix_nil in Ha. discriminate.
  - cbn [occurs] in Hsep. apply orb_false_iff in Hsep as [Hy Hsep].
    destruct a as [|x a].
    + rewrite append_nil_l, prefix_cons.
      destruct (ascii_dec y ";") as [->|]; [|reflexivity].
      rewrite Ascii.eqb_refl in Hy. discriminate.
    + rewrite append_cons, prefix_cons. rewrite prefix_cons in Ha.
      destruct (ascii_dec y x); [|reflexivity]. now apply IH.
Qed.

Lemma lazy_to_semicolon_plain (m rest : string) :
  occurs ";" m = false -> occurs "010" m = false -> occurs "013" m = false ->
  includes lineSeparator m = false ->
  includes paragraphSeparator m = false ->
  lazy_to_semicolon (m +:+ String ";" rest) = Some m.
Proof.
  induction m as [|x r IH]; intros H1 H2 H3 H4 H5.
  - reflexivity.
  - cbn [occurs] in H1, H2, H3. rewrite includes_unfold in H4, H5.
    apply orb_false_iff in H1 as [H1 H1'], H2 as [H2 H2'], H3 as [H3 H3'].
    apply orb_false_iff in H4 as [H4 H4'], H5 as [H5 H5'].
    rewrite append_cons, lazy_to_semicolon_cons, <- append_cons.
    rewrite H1, H2, H3.
    rewrite (prefix_before_semicolon lineSeparator _ rest eq_refl H4).
    rewrite (prefix_before_semicolon paragraphSeparator _ rest eq_refl H5).
    cbn [orb]. now rewrite (IH H1' H2' H3' H4' H5').
Qed.



Lemma fileToPart_data_url (w : World) (file : File) (m payload : string) :
  plain_mime m ->
  occurs "," payload = false ->
  readAsDataURL w file = Ok ("data:" +:+ m +:+ ";base64," +:+ payload) ->
  fileToPart w file = Ok (ImagePart m payload).
Proof.
  intros (Hne & Hsemi & Hcomma & Hlf & Hcr & Hls & Hps) Hp Hread.
  unfold fileToPart. rewrite Hread. cbn [bind].
  replace ("data:" +:+ m +:+ ";base64," +:+ payload)
    with (("data:" +:+ m +:+ ";base64") +:+ String "," payload)
    by (now rewrite !append_assoc).
  rewrite split_at_separator, (split_no_separator _ _ Hp).
  2: { rewrite !occurs_append, Hcomma. reflexivity. }
  change (mime_match ("data:" +:+ m +:+ ";base64"))
    with (match lazy_to_semicolon (m +:+ String ";" "base64") with
          | Some g => Some g
          | None => mime_match (m +:+ ";base64")
          end).
  rewrite (lazy_to_semicolon_plain m "base64" Hsemi Hlf Hcr Hls Hps).
  destruct m as [|c m]; [contradiction | reflexivity].
Qed.

End Service.

Import Service.

(** X4. Round trip of the data URI: the URI that [extractImageUrl] builds
    from the first inline image of a response, with MIME type [m] and data
    [d], is read back by [fileToPart] as the image part with exactly [m]
    and [d], for every MIME type [m] that is not empty and holds no
    semicolon, no comma and none of the four line terminators (line feed,
    carriage return, U+2028, U+2029), and every comma-free [d] (as base64
    is). *)
Theorem data_uri_round_trip
    (response : GenerateContentResponse) (part : Part) (m d : string) :
  imagePartFromResponse response = Some part ->
  inlineData part = Some {| mimeType := Some m; data := Some d |} ->
  plain_mime m ->
  occurs "," d = false ->
  exists url,
    extractImageUrl response = Some url /\
    forall (w : World) (file : File),
      readAsDataURL w file = Ok url -> fileToPart w file = Ok (ImagePart m d).
Proof.
  intros Hpart Hinline Hm Hd. unfold extractImageUrl. rewrite Hpart, Hinline.
  cbn [mimeType data tpl]. eexists. split; [reflexivity |].
  intros w file. now apply fileToPart_data_url.
Qed.

Lemma data_uri_round_trip_witness :
  extractImageUrl (imageResponse "IMG0") = Some "data:image/png;base64,IMG0" /\
  fileToPart (sampleWorldReading (Ok "data:image/png;base64,IMG0")) sampleFile
  = Ok (ImagePart "image/png" "IMG0").
Proof.
  destruct (data_uri_round_trip (imageResponse "IMG0") _ "image/png" "IMG0"
              eq_refl eq_refl) as (url & Hurl & Hread).
  - repeat split; discriminate.
  - reflexivity.
  - split; [reflexivity |]. injection Hurl as <-.
    apply (Hread (sampleWorldReading (Ok "data:image/png;base64,IMG0")) sampleFile).
    reflexivity.
Defined.

(** A MIME type that holds U+2028 is not read back: the expression finds
    no group, as in the code. *)
Example fileToPart_refuses_line_separator :
  fileToPart
    (sampleWorldReading
       (Ok ("data:image/" +:+ lineSeparator +:+ "png;base64,UE5H")))
    sampleFile
  = Throw (ErrorObj "Could not parse MIME type from data URL").
Proof. reflexivity. Qed.



(** X6. The errors of [fileToPart]: a rejected read is passed through; a
    read without a comma fails with "Invalid data URL"; a read whose text
    before the first comma holds no colon fails with "Could not parse MIME
    type from data URL". *)
Theorem fileToPart_errors (w : World) (file : File) :
  (forall e, readAsDataURL w file = Throw e -> fileToPart w file = Throw e) /\
  (forall dataUrl,
     readAsDataURL w file = Ok dataUrl -> occurs "," dataUrl = false ->
     fileToPart w file = Throw (ErrorObj "Invalid data URL")) /\
  (forall head rest,
     readAsDataURL w file = Ok (head +:+ String "," rest) ->
     occurs "," head = false -> occurs ":" head = false ->
     fileToPart w file = Throw (ErrorObj "Could not parse MIME type from data URL")).
Proof.
  unfold fileToPart. split; [|split].
  - intros e ->. reflexivity.
  - intros dataUrl -> Hc. cbn [bind]. now rewrite (split_no_separator _ _ Hc).
  - intros head rest -> Hc Hcolon. cbn [bind].
    rewrite (split_at_separator _ _ _ Hc).
    pose proof (split_nonempty "," rest) as Hne.
    destruct (split "," rest) as [|payload more]; [contradiction |].
    assert (Hm : mime_match head = None).
    { clear -Hcolon. induction head as [|x r IH]; [reflexivity |].
      simpl in *. apply orb_false_iff in Hcolon as [-> Hr]. now apply IH. }
    now rewrite Hm.
Qed.

Lemma fileToPart_errors_witness :
  fileToPart (sampleWorldReading (Ok "no comma here")) sampleFile
  = Throw (ErrorObj "Invalid data URL") /\
  fileToPart (sampleWorldReading (Ok "no colon here,UE5H")) sampleFile
  = Throw (ErrorObj "Could not parse MIME type from data URL").
Proof.
  split.
  - exact (proj1 (proj2 (fileToPart_errors
                           (sampleWorldReading (Ok "no comma here")) sampleFile))
             "no comma here" eq_refl eq_refl).
  - exact (proj2 (proj2 (fileToPart_errors
                           (sampleWorldReading (Ok "no colon here,UE5H")) sampleFile))
             "no colon here" "UE5H" eq_refl eq_refl eq_refl).
Defined.

(* ===================================================================== *)
(** * 13. Further properties of the orchestrator *)
(* ===================================================================== *)

Module OrchestratorMore.

(** The rejection [Promise.all] reports: one of the rejections, and none
    settles before it. *)
Lemma first_rejection_Some (ps : list Settled) (t : nat) (e : Exn) :
  first_rejection ps = Some (t, e) ->
  exists i p,
    ps !! i = Some p /\ outcome p = inl e /\ settledAt p = t /\
    forall j q e', ps !! j = Some q -> outcome q = inl e' ->
                   (t <= settledAt q)%nat.
Proof.
  revert t e; induction ps as [|p ps IH]; intros t e; simpl; [discriminate |].
  destruct (outcome p) as [e0|r] eqn:Ep.
  - destruct (first_rejection ps) as [[t1 e1]|] eqn:E.
    + destruct (IH t1 e1 eq_refl) as (i & q & Hi & Hq & Ht & Hmin).
      destruct (t1 <? settledAt p)%nat eqn:Hlt; intros [= <- <-].
      * apply Nat.ltb_lt in Hlt. exists (S i), q. repeat split; try assumption.
        intros [|j] q' e' Hj Hq'; simpl in Hj.
        -- injection Hj as <-. lia.
        -- now apply (Hmin j q' e').
      * apply Nat.ltb_ge in Hlt. exists 0%nat, p. repeat split; try assumption.
        intros [|j] q' e' Hj Hq'; simpl in Hj.
        -- injection Hj as <-. lia.
        -- specialize (Hmin j q' e' Hj Hq'). lia.
    + intros [= <- <-]. exists 0%nat, p. repeat split; try assumption.
      intros [|j] q' e' Hj Hq'; simpl in Hj.
      * injection Hj as <-. lia.
      * exfalso. apply first_rejection_None in E.
        rewrite Forall_lookup in E. destruct (E j q' Hj) as [r Hr]. congruence.
  - intros H. destruct (IH t e H) as (i & q & Hi & Hq & Ht & Hmin).
    exists (S i), q. repeat split; try assumption.
    intros [|j] q' e' Hj Hq'; simpl in Hj.
    + injection Hj as <-. congruence.
    + now apply (Hmin j q' e').
Qed.

Lemma first_rejection_exists (ps : list Settled) :
  Exists (fun p => exists e, outcome p = inl e) ps ->
  exists t e, first_rejection ps = Some (t, e).
Proof.
  intros H. destruct (first_rejection ps) as [[t e]|] eqn:E; [eauto |].
  exfalso. apply first_rejection_None in E.
  apply Exists_exists in H as (p & Hp & e & He).
  rewrite Forall_forall in E. destruct (E p Hp) as [r Hr]. congruence.
Qed.

Lemma generationPromises_promiseAt w part prompt n i p :
  imap (generateContent w) (generationRequests part prompt n) !! i = Some p ->
  (i < n)%nat /\ p = promiseAt w part prompt n i.
Proof.
  intros Hp. assert (Hi : (i < n)%nat).
  { apply lookup_lt_Some in Hp. now rewrite generationPromises_length in Hp. }
  rewrite generationPromises_lookup in Hp by exact Hi.
  injection Hp as <-. split; [exact Hi | reflexivity].
Qed.

(** The extraction fails only at a response without an image, the first
    one, and with the error that names its position. *)
Lemma extractAll_Throw_inv (k : nat) (rs : list GenerateContentResponse) (e : Exn) :
  extractAll k rs = Throw e ->
  exists i r,
    rs !! i = Some r /\ extractImageUrl r = None /\ e = missingImage (k + i).
Proof.
  revert k; induction rs as [|r rs IH]; intros k; simpl; [discriminate |].
  destruct (extractImageUrl r) as [u|] eqn:E.
  - destruct (extractAll (S k) rs) as [us|e'] eqn:E'; simpl; [discriminate |].
    intros [= <-]. destruct (IH (S k) E') as (i & r' & Hi & Hr' & ->).
    exists (S i), r'. repeat split; try assumption. f_equal. lia.
  - intros [= <-]. exists 0%nat, r. repeat split; try assumption.
    f_equal. lia.
Qed.

Lemma extractAll_length (k : nat) (rs : list GenerateContentResponse)
    (urls : list string) :
  extractAll k rs = Ok urls -> length urls = length rs.
Proof.
  intros H. apply extractAll_Ok in H. symmetry. exact (Forall2_length _ _ _ H).
Qed.

End OrchestratorMore.

Import OrchestratorMore.

(** X7. The failures of the orchestrator: whenever [generateHouseImage]
    fails with [e], either the client could not be built or the base image
    could not be encoded (then [e] is that error and no call was issued),
    or all [n] calls were issued and [e] is the reason of a rejected call,
    or every call returned a response and [e] names the position of a
    response without an image. The count check after the extraction is
    never what fails. *)
Theorem generateHouseImage_failure_cases
    (w : World) (baseImage : File) (prompt : string) (n : nat) (e : Exn) :
  fst (generateHouseImage w baseImage prompt n) = Throw e ->
  (newGoogleGenAI w = Throw e /\
   snd (generateHouseImage w baseImage prompt n) = []) \/
  (fileToPart w baseImage = Throw e /\
   snd (generateHouseImage w baseImage prompt n) = []) \/
  (exists part,
     fileToPart w baseImage = Ok part /\
     length (snd (generateHouseImage w baseImage prompt n)) = n /\
     ((exists i, (i < n)%nat /\ responseAt w part prompt n i = inl e) \/
      (exists k response,
         (k < n)%nat /\ responseAt w part prompt n k = inr response /\
         extractImageUrl response = None /\ e = missingImage k /\
         forall i, (i < n)%nat ->
           exists r, responseAt w part prompt n i = inr r))).
Proof.
  unfold generateHouseImage.
  destruct (newGoogleGenAI w) as [[]|e0] eqn:Hc; cbn [bind].
  2: { intros [= <-]. left. split; reflexivity. }
  destruct (fileToPart w baseImage) as [part|e0] eqn:Hp.
  2: { intros [= <-]. right; left. split; reflexivity. }
  cbn [fst snd]. intros H. right; right. exists part. split; [reflexivity |].
  split; [now rewrite length_map, generationRequests_length |].
  set (ps := imap (generateContent w) (generationRequests part prompt n)) in *.
  unfold promise_all in H.
  destruct (first_rejection ps) as [[t e1]|] eqn:Hfirst; cbn [bind] in H.
  - injection H as <-. left.
    destruct (first_rejection_Some _ _ _ Hfirst) as (i & p & Hi & Hout & _).
    apply generationPromises_responseAt in Hi as [Hlt Heq].
    exists i. split; [exact Hlt | now rewrite <- Heq].
  - right. pose proof (proj1 (first_rejection_None ps) Hfirst) as Hall.
    pose proof (resolved_Forall2 _ Hall) as Hres.
    destruct (extractAll 0 (resolved ps)) as [urls|e1] eqn:Hex; cbn [bind] in H.
    + exfalso. apply extractAll_length in Hex.
      rewrite Hex, <- (Forall2_length _ _ _ Hres) in H.
      unfold ps in H. rewrite generationPromises_length, Nat.eqb_refl in H.
      discriminate.
    + injection H as <-.
      destruct (extractAll_Throw_inv _ _ _ Hex) as (k & r & Hk & Hr & ->).
      destruct (Forall2_lookup_r _ _ _ _ _ Hres Hk) as (p & Hpk & Hout).
      apply generationPromises_responseAt in Hpk as [Hlt Heq].
      exists k, r. split; [exact Hlt |]. split; [now rewrite <- Heq |].
      split; [exact Hr |]. split; [reflexivity |].
      intros i Hi.
      pose proof (generationPromises_lookup w part prompt n i Hi) as Hpi.
      rewrite Forall_lookup in Hall. apply (Hall i _ Hpi).
Qed.

Lemma generateHouseImage_failure_cases_witness :
  exists part,
    fileToPart (sampleWorld thirdRejected) sampleFile = Ok part /\
    length (snd (generateHouseImage (sampleWorld thirdRejected) sampleFile "prompt" 3))
    = 3%nat.
Proof.
  destruct (generateHouseImage_failure_cases (sampleWorld thirdRejected) sampleFile
              "prompt" 3 (ErrorObj "503 Service Unavailable") eq_refl)
    as [[H _]|[[H _]|(part & Hp & Hlen & _)]].
  - discriminate H.
  - discriminate H.
  - exists part. split; [exact Hp | exact Hlen].
Defined.

(** X8. A rejected call fails the batch: once the client is built and the
    base image encoded, if any of the [n] calls is rejected then
    [generateHouseImage] fails with the reason of a rejected call that no
    other rejection settles before, whether or not the other responses
    carry images; all [n] calls have been issued all the same. *)
Theorem rejection_fails_the_batch
    (w : World) (baseImage : File) (prompt : string) (n : nat)
    (part : RequestPart) :
  newGoogleGenAI w = Ok tt ->
  fileToPart w baseImage = Ok part ->
  (exists i e, (i < n)%nat /\ responseAt w part prompt n i = inl e) ->
  exists i e,
    (i < n)%nat /\
    responseAt w part prompt n i = inl e /\
    fst (generateHouseImage w baseImage prompt n) = Throw e /\
    length (snd (generateHouseImage w baseImage prompt n)) = n /\
    forall j e', (j < n)%nat -> responseAt w part prompt n j = inl e' ->
      (settledAt (promiseAt w part prompt n i)
       <= settledAt (promiseAt w part prompt n j))%nat.
Proof.
  intros Hc Hp (i0 & e0 & Hi0 & He0).
  rewrite (generateHouseImage_unfold _ _ _ _ _ Hc Hp). cbn [fst snd].
  set (ps := imap (generateContent w) (generationRequests part prompt n)).
  assert (Hex : Exists (fun p => exists e, outcome p = inl e) ps).
  { apply Exists_exists. exists (promiseAt w part prompt n i0). split.
    - apply list_elem_of_lookup. exists i0.
      now apply generationPromises_lookup.
    - now exists e0. }
  destruct (first_rejection_exists _ Hex) as (t & e & Hfirst).
  destruct (first_rejection_Some _ _ _ Hfirst) as (i & p & Hi & Hout & Ht & Hmin).
  apply generationPromises_promiseAt in Hi as [Hlt ->].
  exists i, e. split; [exact Hlt |]. split; [exact Hout |].
  split; [unfold promise_all; now rewrite Hfirst |].
  split; [now rewrite length_map, generationRequests_length |].
  intros j e' Hj Hj'. rewrite Ht.
  apply (Hmin j (promiseAt w part prompt n j) e'); [|exact Hj'].
  now apply generationPromises_lookup.
Qed.

Lemma rejection_fails_the_batch_witness :
  exists i e,
    (i < 3)%nat /\
    responseAt (sampleWorld thirdRejected) (ImagePart "image/png" "UE5H") "prompt" 3 i
    = inl e /\
    fst (generateHouseImage (sampleWorld thirdRejected) sampleFile "prompt" 3)
    = Throw e.
Proof.
  destruct (rejection_fails_the_batch (sampleWorld thirdRejected) sampleFile
              "prompt" 3 (ImagePart "image/png" "UE5H") eq_refl eq_refl)
    as (i & e & Hi & Hr & Hf & _).
  - exists 2%nat, (ErrorObj "503 Service Unavailable"). split; [lia | reflexivity].
  - exists i, e. repeat split; assumption.
Defined.

(* ===================================================================== *)
(** * 14. Further properties of the generation handlers *)
(* ===================================================================== *)

Module Handlers.

(** A successful orchestration returns one handle per call, the handle at
    each index extracted from the response of the call at that index. *)
Lemma generateHouseImage_Ok_aligned w baseImage prompt n part urls :
  newGoogleGenAI w = Ok tt ->
  fileToPart w baseImage = Ok part ->
  fst (generateHouseImage w baseImage prompt n) = Ok urls ->
  length urls = n /\
  forall i, (i < n)%nat ->
    exists response,
      responseAt w part prompt n i = inr response /\
      extractImageUrl response = urls !! i.
Proof.
  intros Hc Hp H. rewrite (generateHouseImage_unfold _ _ _ _ _ Hc Hp) in H.
  cbn [fst] in H.
  destruct (promise_all _) as [responses|e] eqn:Hall; cbn [bind] in H; [|discriminate].
  destruct (extractAll 0 responses) as [finalImageUrls|e] eqn:Hex; cbn [bind] in H;
    [|discriminate].
  destruct (length finalImageUrls =? n)%nat eqn:Hlen; cbn [negb] in H; [|discriminate].
  injection H as <-. apply Nat.eqb_eq in Hlen.
  apply promise_all_Ok in Hall. apply extractAll_Ok in Hex.
  split; [exact Hlen |]. intros i Hi.
  pose proof (generationPromises_lookup w part prompt n i Hi) as Hpi.
  destruct (Forall2_lookup_l _ _ _ _ _ Hall Hpi) as (response & Hri & Hout).
  destruct (Forall2_lookup_l _ _ _ _ _ Hex Hri) as (url & Hui & Hurl).
  exists response. split; [exact Hout | congruence].
Qed.

Lemma handleGenerate_events w s file :
  baseImageFile s = Some file ->
  snd (handleGenerate w s)
  = (revokeAll (generatedImageUrls s)
     ++ snd (generateHouseImage w file (buildPrompt (options s))
               (numberOfVariations s)))%list.
Proof.
  intros Hb. unfold handleGenerate. rewrite Hb.
  destruct (generateHouseImage w file (buildPrompt (options s)) (numberOfVariations s))
    as [result calls].
  reflexivity.
Qed.

(** What [handleGenerateBaseViews] leaves behind, case by case. *)
Lemma handleGenerateBaseViews_cases (w : World) (s : AppState) :
  (baseImageFile s = None /\
   fst (handleGenerateBaseViews w s)
   = setError (Some "Base image is not loaded. Cannot generate views.") s) \/
  (exists file url,
     baseImageFile s = Some file /\
     fst (generateBaseModelViews w file) = Ok url /\
     fst (handleGenerateBaseViews w s)
     = setIsLoading false
         (setGeneratedImageUrls [url] (setError None (setIsLoading true s)))) \/
  (exists file err,
     baseImageFile s = Some file /\
     fst (generateBaseModelViews w file) = Throw err /\
     fst (handleGenerateBaseViews w s)
     = setIsLoading false
         (setGeneratedImageUrls []
            (setError (Some ("Failed to generate base model views. "
                             +:+ messageOr unknownError err))
               (setError None (setIsLoading true s))))).
Proof.
  unfold handleGenerateBaseViews.
  destruct (baseImageFile s) as [file|]; [|left; tauto].
  right. destruct (generateBaseModelViews w file) as [[url|err] calls] eqn:E.
  - left. exists file, url. rewrite E. repeat split.
  - right. exists file, err. rewrite E. repeat split.
Qed.

Lemma urlsToDisplay_nonempty (s : AppState) :
  baseImageUrl s <> "" -> (length (urlsToDisplay s) =? 0)%nat = false.
Proof.
  intros H. unfold urlsToDisplay.
  destruct (0 <? length (generatedImageUrls s))%nat eqn:E.
  - apply Nat.ltb_lt in E. apply Nat.eqb_neq. lia.
  - rewrite bool_decide_eq_false_2 by exact H. reflexivity.
Qed.

Lemma errorPanel_hidden (s : AppState) :
  baseImageUrl s <> "" -> errorPanel s = None.
Proof.
  intros H. unfold errorPanel. destruct (error s) as [message|]; [|reflexivity].
  rewrite (urlsToDisplay_nonempty s H), andb_false_r. reflexivity.
Qed.

End Handlers.

Import Handlers.

(** X9. A generation that succeeds puts all variations on display: in a
    state with a base image, when the client is built, the image encoded
    and each of the [numberOfVariations] calls answers with an image,
    [handleGenerate] leaves no error, ends the loading, and displays exactly
    [numberOfVariations] handles, the one at index [i] extracted from the
    response to call [i]; the options, the budget and the base image are
    untouched. *)
Theorem handleGenerate_displays_all_variations
    (w : World) (s : AppState) (file : File) (part : RequestPart) :
  baseImageFile s = Some file ->
  newGoogleGenAI w = Ok tt ->
  fileToPart w file = Ok part ->
  (forall i, (i < numberOfVariations s)%nat ->
     exists response url,
       responseAt w part (buildPrompt (options s)) (numberOfVariations s) i
       = inr response /\
       extractImageUrl response = Some url) ->
  error (fst (handleGenerate w s)) = None /\
  isLoading (fst (handleGenerate w s)) = false /\
  length (generatedImageUrls (fst (handleGenerate w s))) = numberOfVariations s /\
  (forall i, (i < numberOfVariations s)%nat ->
     exists response,
       responseAt w part (buildPrompt (options s)) (numberOfVariations s) i
       = inr response /\
       extractImageUrl response = generatedImageUrls (fst (handleGenerate w s)) !! i) /\
  options (fst (handleGenerate w s)) = options s /\
  budget (fst (handleGenerate w s)) = budget s /\
  baseImageFile (fst (handleGenerate w s)) = Some file.
Proof.
  intros Hb Hc Hp Hall.
  destruct (generateHouseImage_succeeds w file (buildPrompt (options s))
              (numberOfVariations s) part Hc Hp Hall) as [urls Hok].
  destruct (generateHouseImage_Ok_aligned _ _ _ _ _ _ Hc Hp Hok) as [Hlen Halign].
  destruct (handleGenerate_cases w s)
    as [[Hb' _]|[(f & u & Hb' & Hg & Heq)|(f & e & Hb' & Hg & _)]];
    try congruence.
  assert (f = file) as -> by congruence.
  assert (u = urls) as -> by congruence.
  rewrite Heq. cbn. repeat split; try assumption.
Qed.

Lemma handleGenerate_displays_all_variations_witness :
  generatedImageUrls sampleState
  = ["data:image/png;base64,IMG0"; "data:image/png;base64,IMG1";
     "data:image/png;base64,IMG2"] /\
  length (generatedImageUrls
            (fst (handleGenerate (sampleWorld allImages) sampleState))) = 3%nat.
Proof.
  split; [reflexivity |].
  refine (proj1 (proj2 (proj2 (handleGenerate_displays_all_variations
            (sampleWorld allImages) sampleState
            {| fileName := "image.png"; fileType := "image/png"; fileBytes := "PNG" |}
            (ImagePart "image/png" "UE5H") eq_refl eq_refl eq_refl _)))).
  intros i Hi. unfold responseAt. cbn. eexists _, _. split; reflexivity.
Defined.

(** X10. Release before reuse: in a state with a base image, once the
    client is built and the image encoded, the events of [handleGenerate]
    are the release of every handle that was on display, in display order,
    followed by exactly [numberOfVariations] generator calls, all carrying
    the encoded base image and the same text; when the client or the
    encoding fails, the old handles are released and no call follows. *)
Theorem handleGenerate_releases_then_calls
    (w : World) (s : AppState) (file : File) :
  baseImageFile s = Some file ->
  (forall part,
     newGoogleGenAI w = Ok tt -> fileToPart w file = Ok part ->
     snd (handleGenerate w s)
     = (map EvRevoke (generatedImageUrls s)
        ++ replicate (numberOfVariations s)
             (EvGenerate (request part
                (variationPrompt (buildPrompt (options s)) (numberOfVariations s)))))%list) /\
  (forall e,
     (newGoogleGenAI w = Throw e \/ fileToPart w file = Throw e) ->
     snd (handleGenerate w s) = map EvRevoke (generatedImageUrls s)).
Proof.
  intros Hb. rewrite (handleGenerate_events w s file Hb). split.
  - intros part Hc Hp. rewrite (generateHouseImage_unfold _ _ _ _ _ Hc Hp).
    cbn [snd]. rewrite generationRequests_replicate. f_equal.
    generalize (numberOfVariations s) at 1 3 as n. intros n.
    induction n as [|n IH]; [reflexivity |]. cbn. now rewrite <- IH.
  - intros e He. unfold generateHouseImage.
    destruct (newGoogleGenAI w) as [[]|e0]; cbn [bind].
    + destruct He as [He|He]; [discriminate |]. rewrite He. cbn.
      apply app_nil_r.
    + cbn. apply app_nil_r.
Qed.

Lemma handleGenerate_releases_then_calls_witness :
  snd (handleGenerate (sampleWorld allImages) sampleState)
  = (map EvRevoke (generatedImageUrls sampleState)
     ++ replicate 3 (EvGenerate (request (ImagePart "image/png" "UE5H")
          (variationPrompt (buildPrompt (options sampleState)) 3))))%list.
Proof.
  exact (proj1 (handleGenerate_releases_then_calls (sampleWorld allImages) sampleState
                  {| fileName := "image.png"; fileType := "image/png"; fileBytes := "PNG" |}
                  eq_refl)
           (ImagePart "image/png" "UE5H") eq_refl eq_refl).
Defined.

(** X11. Base views, all or nothing: in every reachable state,
    [handleGenerateBaseViews] ends either without an error and with
    exactly one handle on display, or with an error and with no generated
    handle on display. *)
Theorem handleGenerateBaseViews_outcome (w : World) (s : AppState) :
  reachable s ->
  (error (fst (handleGenerateBaseViews w s)) = None /\
   exists url, generatedImageUrls (fst (handleGenerateBaseViews w s)) = [url]) \/
  (is_Some (error (fst (handleGenerateBaseViews w s))) /\
   generatedImageUrls (fst (handleGenerateBaseViews w s)) = []).
Proof.
  intros Hreach.
  destruct (handleGenerateBaseViews_cases w s)
    as [[Hb ->]|[(file & url & Hb & _ & ->)|(file & err & Hb & _ & ->)]]; cbn.
  - right. split; [eexists; reflexivity |].
    now apply (reachable_results_need_base_image s Hreach).
  - left. split; [reflexivity | now exists url].
  - right. split; [eexists; reflexivity | reflexivity].
Qed.

Lemma handleGenerateBaseViews_outcome_witness :
  (error (fst (handleGenerateBaseViews (sampleWorld allImages) sampleState)) = None /\
   exists url,
     generatedImageUrls (fst (handleGenerateBaseViews (sampleWorld allImages) sampleState))
     = [url]) \/
  (is_Some (error (fst (handleGenerateBaseViews (sampleWorld allImages) sampleState))) /\
   generatedImageUrls (fst (handleGenerateBaseViews (sampleWorld allImages) sampleState))
   = []).
Proof.
  apply (handleGenerateBaseViews_outcome (sampleWorld allImages) sampleState).
  exists sampleActions. reflexivity.
Defined.

(** X12. A failed generation is not announced while an image is on
    display: in a state whose base image URL is not empty, after
    [handleGenerate] and after [handleGenerateBaseViews], whatever their
    outcome, the base image URL is unchanged, at least one image is on
    display and the error panel is not rendered, even when the handler has
    recorded an error. *)
Theorem generation_errors_are_not_displayed (w : World) (s : AppState) :
  baseImageUrl s <> "" ->
  (baseImageUrl (fst (handleGenerate w s)) = baseImageUrl s /\
   urlsToDisplay (fst (handleGenerate w s)) <> [] /\
   errorPanel (fst (handleGenerate w s)) = None) /\
  (baseImageUrl (fst (handleGenerateBaseViews w s)) = baseImageUrl s /\
   urlsToDisplay (fst (handleGenerateBaseViews w s)) <> [] /\
   errorPanel (fst (handleGenerateBaseViews w s)) = None).
Proof.
  intros H.
  assert (Hg : baseImageUrl (fst (handleGenerate w s)) = baseImageUrl s).
  { destruct (handleGenerate_cases w s)
      as [[_ ->]|[(? & ? & _ & _ & ->)|(? & ? & _ & _ & ->)]]; reflexivity. }
  assert (Hv : baseImageUrl (fst (handleGenerateBaseViews w s)) = baseImageUrl s).
  { destruct (handleGenerateBaseViews_cases w s)
      as [[_ ->]|[(? & ? & _ & _ & ->)|(? & ? & _ & _ & ->)]]; reflexivity. }
  assert (Hshow : forall s', baseImageUrl s' = baseImageUrl s ->
            baseImageUrl s' = baseImageUrl s /\ urlsToDisplay s' <> [] /\
            errorPanel s' = None).
  { intros s' Heq. split; [exact Heq |]. rewrite <- Heq in H. split.
    - pose proof (urlsToDisplay_nonempty s' H) as Hn.
      intros Hnil. rewrite Hnil in Hn. discriminate.
    - now apply errorPanel_hidden. }
  split; apply Hshow; assumption.
Qed.

Lemma generation_errors_are_not_displayed_witness :
  error (fst (handleGenerate (sampleWorld secondWithoutImage) sampleState))
  = Some "Failed to generate the image. The AI model did not return an image for variation 2." /\
  errorPanel (fst (handleGenerate (sampleWorld secondWithoutImage) sampleState)) = None.
Proof.
  split; [reflexivity |].
  refine (proj2 (proj2 (proj1 (generation_errors_are_not_displayed
            (sampleWorld secondWithoutImage) sampleState _)))).
  discriminate.
Defined.

(* ===================================================================== *)
(** * 15. Further properties of the component *)
(* ===================================================================== *)

Module ComponentMore.

Lemma probe_not_found (w : World) (before rest : list string) :
  Forall (not_found w) before -> probe w (before ++ rest) = probe w rest.
Proof.
  induction 1 as [|q before (res & Hq & Hok & Hst) _ IH]; [reflexivity |].
  cbn [app probe]. rewrite Hq, Hok, Hst. exact IH.
Qed.

Lemma probe_Found_inv (w : World) (paths : list string) p res :
  probe w paths = Found p res ->
  exists before after,
    paths = (before ++ p :: after)%list /\ Forall (not_found w) before /\
    fetch w p = Ok res /\ ok res = true.
Proof.
  induction paths as [|q paths IH]; cbn [probe]; [discriminate |].
  destruct (fetch w q) as [r|e] eqn:Hq; [|discriminate].
  destruct (ok r) eqn:Hok.
  - intros [= <- <-]. exists [], paths. repeat split; [constructor | assumption..].
  - destruct (status r =? 404)%nat eqn:Hst; cbn [negb]; [|discriminate].
    intros H. destruct (IH H) as (before & after & -> & Hb & Hp & Hokp).
    exists (q :: before), after. repeat split; try assumption.
    constructor; [|exact Hb]. exists r. apply Nat.eqb_eq in Hst. auto.
Qed.

Lemma probe_NotFound (w : World) (paths : list string) :
  probe w paths = NotFound <-> Forall (not_found w) paths.
Proof.
  split.
  - induction paths as [|q paths IH]; cbn [probe]; [constructor |].
    destruct (fetch w q) as [r|e] eqn:Hq; [|discriminate].
    destruct (ok r) eqn:Hok; [discriminate |].
    destruct (status r =? 404)%nat eqn:Hst; cbn [negb]; [|discriminate].
    intros H. constructor; [|exact (IH H)].
    exists r. apply Nat.eqb_eq in Hst. auto.
  - intros H. rewrite <- (app_nil_r paths). now rewrite probe_not_found.
Qed.

Lemma probe_Stopped_inv (w : World) (paths : list string) msg :
  probe w paths = Stopped msg ->
  exists before p after,
    paths = (before ++ p :: after)%list /\ Forall (not_found w) before /\
    ((exists e, fetch w p = Throw e /\ msg = messageOr rendered e) \/
     (exists res, fetch w p = Ok res /\ ok res = false /\ status res <> 404%nat /\
        msg = "Server responded with status: " +:+ Str.of_nat (status res))).
Proof.
  induction paths as [|q paths IH]; cbn [probe]; [discriminate |].
  destruct (fetch w q) as [r|e] eqn:Hq.
  - destruct (ok r) eqn:Hok; [discriminate |].
    destruct (status r =? 404)%nat eqn:Hst; cbn [negb].
    + intros H. destruct (IH H) as (before & p & after & -> & Hb & Hcase).
      exists (q :: before), p, after. repeat split; try assumption.
      constructor; [|exact Hb]. exists r. apply Nat.eqb_eq in Hst. auto.
    + intros [= <-]. exists [], q, paths. repeat split; [constructor |].
      right. exists r. apply Nat.eqb_neq in Hst. auto.
  - intros [= <-]. exists [], q, paths. repeat split; [constructor |].
    left. now exists e.
Qed.




Lemma select_event_typed (name value : string) :
  select_event name value ->
  exists f, name = field_name f /\ In value (domain f).
Proof.
  intros (field & Hin & -> & Hv). cbn in Hin.
  repeat (destruct Hin as [<-|Hin];
          [cbn in Hv; first
             [ exists colorTheme; split; [reflexivity | cbn; tauto]
             | exists doors; split; [reflexivity | cbn; tauto]
             | exists windows; split; [reflexivity | cbn; tauto]
             | exists frontYard; split; [reflexivity | cbn; tauto]
             | exists landscaping; split; [reflexivity | cbn; tauto]
             | exists outdoorFeatures; split; [reflexivity | cbn; tauto]
             | exists furniture; split; [reflexivity | cbn; tauto]
             | exists roof; split; [reflexivity | cbn; tauto] ] |]).
  destruct Hin.
Qed.

Lemma field_name_inj (f g : Field) : field_name f = field_name g -> f = g.
Proof. destruct f, g; cbn; intros H; first [reflexivity | discriminate H]. Qed.

Lemma well_typed_insert (options : gmap string string) (f : Field) (v : string) :
  well_typed options -> In v (domain f) ->
  well_typed (<[field_name f := v]> options).
Proof.
  intros H Hv g. destruct (decide (field_name f = field_name g)) as [Heq|Hne].
  - apply field_name_inj in Heq as <-.
    exists v. split; [apply lookup_insert_eq | exact Hv].
  - destruct (H g) as (u & Hu & Hin). exists u. split; [|exact Hin].
    now rewrite lookup_insert_ne.
Qed.

Lemma step_fully_populated (s : AppState) (a : Action) :
  fully_populated s -> fully_populated (fst (step s a)).
Proof.
  intros H0 g. destruct a as [w|name value|v|v|w|w|]; cbn [step fst].
  - unfold fetchBaseImage. destruct (probe w pathsToTry) as [path res|msg|];
      [destruct (blob res) as [[? ?]|?] | |]; apply H0.
  - unfold handleOptionChange. destruct (isCustomizationKey name); [|apply H0].
    cbn. destruct (decide (name = field_name g)) as [->|Hne].
    + rewrite lookup_insert_eq. eauto.
    + rewrite lookup_insert_ne by exact Hne. apply H0.
  - apply H0.
  - apply H0.
  - destruct (handleGenerate_cases w s)
      as [[_ ->]|[(? & ? & _ & _ & ->)|(? & ? & _ & _ & ->)]]; apply H0.
  - destruct (Handlers.handleGenerateBaseViews_cases w s)
      as [[_ ->]|[(? & ? & _ & _ & ->)|(? & ? & _ & _ & ->)]]; apply H0.
  - destruct g; eexists; reflexivity.
Qed.

Lemma run_fully_populated (actions : list Action) (s : AppState) :
  fully_populated s -> fully_populated (fst (run s actions)).
Proof.
  revert s; induction actions as [|a actions IH]; intros s H; [exact H |].
  cbn [run]. pose proof (step_fully_populated s a H) as H1.
  destruct (step s a) as [s1 ev1]. specialize (IH s1 H1).
  destruct (run s1 actions) as [s2 ev2]. exact IH.
Qed.

End ComponentMore.

Import ComponentMore.

(** X13. The search for the base image: [probe] consults the paths in
    order and stops at the first one that does not answer 404. It finds a
    path exactly when that path answers [ok] after only 404s; it reports
    "not found" exactly when every path answers 404; and when it stops
    with an error, the path that caused it was rejected or answered with a
    status other than 404, after only 404s. *)
Theorem probe_outcome (w : World) (paths : list string) :
  (forall p res,
     probe w paths = Found p res <->
     exists before after,
       paths = (before ++ p :: after)%list /\ Forall (not_found w) before /\
       fetch w p = Ok res /\ ok res = true) /\
  (probe w paths = NotFound <-> Forall (not_found w) paths) /\
  (forall msg,
     probe w paths = Stopped msg ->
     exists before p after,
       paths = (before ++ p :: after)%list /\ Forall (not_found w) before /\
       ((exists e, fetch w p = Throw e /\ msg = messageOr rendered e) \/
        (exists res, fetch w p = Ok res /\ ok res = false /\
           status res <> 404%nat /\
           msg = "Server responded with status: " +:+ Str.of_nat (status res)))).
Proof.
  split; [|split].
  - intros p res. split; [apply probe_Found_inv |].
    intros (before & after & -> & Hb & Hp & Hok).
    rewrite (probe_not_found w before _ Hb). cbn [probe]. now rewrite Hp, Hok.
  - apply probe_NotFound.
  - apply probe_Stopped_inv.
Qed.

Lemma probe_outcome_witness :
  probe (sampleWorld allImages) pathsToTry
  = Found "/image.png"
      {| ok := true; status := 200;
         blob := Ok ("application/octet-stream", "PNG") |}.
Proof.
  apply (proj1 (probe_outcome (sampleWorld allImages) pathsToTry)).
  exists ["/prefab.png"], ["/image-0.png"]. split; [reflexivity |].
  split; [|split; reflexivity].
  constructor; [|constructor]. eexists. repeat split.
Defined.

(** X14. Loading the base image: when one of the three paths answers [ok]
    with a readable blob after the paths before it answered 404,
    [fetchBaseImage] stores a file named after that path (prefab.png,
    image.png or image-0.png), typed with the blob's type unless that is
    empty or generic, in which case it is typed image/png; it stores the
    object URL of that file, leaves no error and ends the loading. *)
Theorem fetchBaseImage_loads
    (w : World) (s : AppState) (before after : list string)
    (p blobType bytes : string) (res : FetchResponse) :
  pathsToTry = (before ++ p :: after)%list ->
  Forall (not_found w) before ->
  fetch w p = Ok res -> ok res = true ->
  blob res = Ok (blobType, bytes) ->
  exists file,
    baseImageFile (fetchBaseImage w s) = Some file /\
    "/" +:+ fileName file = p /\
    In (fileName file) ["prefab.png"; "image.png"; "image-0.png"] /\
    fileType file = (if generic_type blobType then "image/png" else blobType) /\
    fileBytes file = bytes /\
    baseImageUrl (fetchBaseImage w s) = createObjectURL w file /\
    error (fetchBaseImage w s) = None /\
    isLoading (fetchBaseImage w s) = false.
Proof.
  intros Hpaths Hb Hp Hok Hblob.
  assert (Hprobe : probe w pathsToTry = Found p res).
  { rewrite Hpaths, (probe_not_found w before _ Hb). cbn [probe].
    now rewrite Hp, Hok. }
  unfold fetchBaseImage. rewrite Hprobe, Hblob. cbn.
  eexists. split; [reflexivity |]. cbn.
  assert (Hin : In p pathsToTry).
  { rewrite Hpaths. apply in_or_app. right. now left. }
  unfold sniffMimeType, generic_type. cbn in Hin.
  destruct Hin as [<-|[<-|[<-|[]]]]; cbn;
    (destruct (bool_decide (blobType = "") || bool_decide (blobType = "application/octet-stream"));
     repeat split; tauto).
Qed.

Lemma fetchBaseImage_loads_witness :
  exists file,
    baseImageFile (fetchBaseImage (sampleWorld allImages) initialState) = Some file /\
    "/" +:+ fileName file = "/image.png" /\
    fileType file = "image/png".
Proof.
  destruct (fetchBaseImage_loads (sampleWorld allImages) initialState
              ["/prefab.png"] ["/image-0.png"] "/image.png"
              "application/octet-stream" "PNG"
              {| ok := true; status := 200;
                 blob := Ok ("application/octet-stream", "PNG") |}
              eq_refl)
    as (file & Hfile & Hname & _ & Htype & _).
  - constructor; [|constructor]. eexists. repeat split.
  - reflexivity.
  - reflexivity.
  - reflexivity.
  - exists file. repeat split; assumption.
Defined.

(** X15. No base image: when every path answers 404, [fetchBaseImage]
    records the fixed "not found" message; when the first path that does
    not answer 404 answers with another error status, it records that
    status. In both cases the base image, its URL and the results stay as
    they were and the loading ends. *)
Theorem fetchBaseImage_fails (w : World) (s : AppState) :
  (Forall (not_found w) pathsToTry ->
   fetchBaseImage w s
   = setIsLoading false
       (setError (Some "Failed to load the base house image. Tried /prefab.png, /image.png and /image-0.png, but they were not found. Please ensure an image is included in the prompt.") s)) /\
  (forall before p after res,
     pathsToTry = (before ++ p :: after)%list ->
     Forall (not_found w) before ->
     fetch w p = Ok res -> ok res = false -> status res <> 404%nat ->
     fetchBaseImage w s
     = setIsLoading false
         (setError (Some ("Failed to fetch base image. Server responded with status: "
                          +:+ Str.of_nat (status res))) s)).
Proof.
  split.
  - intros H. unfold fetchBaseImage. rewrite (proj2 (probe_NotFound _ _) H).
    reflexivity.
  - intros before p after res Hpaths Hb Hp Hok Hst.
    unfold fetchBaseImage. rewrite Hpaths, (probe_not_found w before _ Hb).
    cbn [probe]. rewrite Hp, Hok, (proj2 (Nat.eqb_neq _ _) Hst). reflexivity.
Qed.

Lemma fetchBaseImage_fails_witness :
  baseImageFile (fetchBaseImage worldWithoutImage initialState) = None /\
  fetchBaseImage worldWithoutImage initialState
  = setIsLoading false
      (setError (Some "Failed to load the base house image. Tried /prefab.png, /image.png and /image-0.png, but they were not found. Please ensure an image is included in the prompt.") initialState).
Proof.
  split; [reflexivity |].
  apply (proj1 (fetchBaseImage_fails worldWithoutImage initialState)).
  repeat constructor; eexists; repeat split.
Defined.

(** X16. No field is ever unset: in every reachable state, the options
    record holds a value for each of the eight fields. *)
Theorem options_fully_populated (s : AppState) (f : Field) :
  reachable s -> is_Some (options s !! field_name f).
Proof.
  intros [actions <-]. apply run_fully_populated.
  intros g; destruct g; eexists; reflexivity.
Qed.

Lemma options_fully_populated_witness :
  is_Some (options sampleState !! "roof").
Proof.
  apply (options_fully_populated sampleState roof).
  exists sampleActions. reflexivity.
Defined.

(** X17. The rendered controls keep the selection well typed: after any
    sequence of actions in which every option change comes from one of the
    eight selects with one of the values it offers, and every choice of
    the number of variations is 1, 3 or 5, the options record is well
    typed and the number of variations is 1, 3 or 5. *)
Theorem controls_keep_the_selection_well_typed (actions : list Action) :
  Forall from_controls actions ->
  well_typed (options (fst (run initialState actions))) /\
  In (numberOfVariations (fst (run initialState actions))) variationChoices.
Proof.
  assert (Hstep : forall s a, from_controls a ->
            well_typed (options s) /\ In (numberOfVariations s) variationChoices ->
            well_typed (options (fst (step s a))) /\
            In (numberOfVariations (fst (step s a))) variationChoices).
  { intros s a Ha [Hw Hn]. destruct a as [w|name value|v|v|w|w|]; cbn [step fst].
    - unfold fetchBaseImage. destruct (probe w pathsToTry) as [path res|msg|];
        [destruct (blob res) as [[? ?]|?] | |]; now split.
    - destruct (select_event_typed name value Ha) as (f & -> & Hv).
      destruct (handleOptionChange_field f value s) as (_ & _ & ->). cbn.
      split; [now apply well_typed_insert | exact Hn].
    - now split.
    - split; [exact Hw | exact Ha].
    - destruct (handleGenerate_cases w s)
        as [[_ ->]|[(? & ? & _ & _ & ->)|(? & ? & _ & _ & ->)]]; now split.
    - destruct (Handlers.handleGenerateBaseViews_cases w s)
        as [[_ ->]|[(? & ? & _ & _ & ->)|(? & ? & _ & _ & ->)]]; now split.
    - split; [apply initialOptions_well_typed | exact Hn]. }
  assert (Hrun : forall acts s, Forall from_controls acts ->
            well_typed (options s) /\ In (numberOfVariations s) variationChoices ->
            well_typed (options (fst (run s acts))) /\
            In (numberOfVariations (fst (run s acts))) variationChoices).
  { induction acts as [|a acts IH]; intros s Hall Hs; [exact Hs |].
    inversion Hall as [|? ? Ha Hacts]; subst.
    cbn [run]. pose proof (Hstep s a Ha Hs) as H1.
    destruct (step s a) as [s1 ev1]. specialize (IH s1 Hacts H1).
    destruct (run s1 acts) as [s2 ev2]. exact IH. }
  intros Hall. apply (Hrun actions initialState Hall).
  split; [apply initialOptions_well_typed | cbn; tauto].
Qed.

Lemma controls_keep_the_selection_well_typed_witness :
  well_typed (options (fst (run initialState
     [ActOptionChange "roof" "Clay Tile Roof"; ActSetNumberOfVariations 5]))) /\
  In (numberOfVariations (fst (run initialState
     [ActOptionChange "roof" "Clay Tile Roof"; ActSetNumberOfVariations 5])))
    variationChoices.
Proof.
  apply (controls_keep_the_selection_well_typed
           [ActOptionChange "roof" "Clay Tile Roof"; ActSetNumberOfVariations 5]).
  constructor; [|constructor; [|constructor]].
  - eexists. split; [do 7 right; left; reflexivity |]. split; [reflexivity |].
    cbn. tauto.
  - cbn. tauto.
Defined.

(** X18. How option changes compose, for every name and value (accepted by
    the key guard or not): of two changes under the same name only the
    later one counts, and two changes under different names can be applied
    in either order. *)
Theorem option_changes_compose (s : AppState) (name1 name2 v1 v2 : string) :
  handleOptionChange name1 v2 (handleOptionChange name1 v1 s)
  = handleOptionChange name1 v2 s /\
  (name1 <> name2 ->
   handleOptionChange name1 v1 (handleOptionChange name2 v2 s)
   = handleOptionChange name2 v2 (handleOptionChange name1 v1 s)).
Proof.
  unfold handleOptionChange. split.
  - destruct (isCustomizationKey name1); [|reflexivity].
    unfold setOptions. cbn. now rewrite insert_insert_eq.
  - intros Hne. destruct (isCustomizationKey name1), (isCustomizationKey name2);
      try reflexivity.
    unfold setOptions. cbn. now rewrite insert_insert_ne.
Qed.

Lemma option_changes_compose_witness :
  handleOptionChange "roof" "Clay Tile Roof"
    (handleOptionChange "doors" "Narra Wood" initialState)
  = handleOptionChange "doors" "Narra Wood"
      (handleOptionChange "roof" "Clay Tile Roof" initialState).
Proof.
  apply (proj2 (option_changes_compose initialState "roof" "doors"
                  "Clay Tile Roof" "Narra Wood")).
  discriminate.
Defined.

(** X19. The budget never influences a session: two sequences of actions
    that differ only in the budgets set on the slider, run from the
    initial state, issue the same events (the same released URLs and the
    same generator requests, prompts included) and end with the same
    options, results, error, base image and number of variations. *)
Theorem budget_never_influences_a_session (actions1 actions2 : list Action) :
  Forall2 same_but_budget_action actions1 actions2 ->
  snd (run initialState actions1) = snd (run initialState actions2) /\
  options (fst (run initialState actions1)) = options (fst (run initialState actions2)) /\
  generatedImageUrls (fst (run initialState actions1))
  = generatedImageUrls (fst (run initialState actions2)) /\
  error (fst (run initialState actions1)) = error (fst (run initialState actions2)) /\
  baseImageFile (fst (run initialState actions1))
  = baseImageFile (fst (run initialState actions2)) /\
  numberOfVariations (fst (run initialState actions1))
  = numberOfVariations (fst (run initialState actions2)).
Proof.
  intros H.
  destruct (run_budget_noninterference actions1 actions2 H initialState initialState
              eq_refl) as [Hs Hev].
  unfold same_but_budget in Hs. split; [exact Hev |].
  rewrite Hs. repeat split.
Qed.

Lemma budget_never_influences_a_session_witness :
  snd (run initialState frugalActions) = snd (run initialState lavishActions) /\
  budget (fst (run initialState frugalActions)) = 350000%Z /\
  budget (fst (run initialState lavishActions)) = 2000000%Z.
Proof.
  split; [|split; reflexivity].
  refine (proj1 (budget_never_influences_a_session frugalActions lavishActions _)).
  constructor; [apply sbb_budget |].
  repeat (constructor; [apply sbb_same |]). constructor.
Defined.



(** X21. Through the enabled buttons the precondition cannot fail: in a
    state in which the three buttons are enabled, a base image is loaded,
    and neither [handleGenerate] nor [handleGenerateBaseViews] records its
    "Base image is not loaded" error. *)
Theorem enabled_buttons_meet_the_precondition (w : World) (s : AppState) :
  buttonsDisabled s = false ->
  is_Some (baseImageFile s) /\
  error (fst (handleGenerate w s))
  <> Some "Base image is not loaded. Cannot generate a new design." /\
  error (fst (handleGenerateBaseViews w s))
  <> Some "Base image is not loaded. Cannot generate views.".
Proof.
  unfold buttonsDisabled. intros H. apply orb_false_iff in H as [_ H].
  apply negb_false_iff, bool_decide_eq_true in H. split; [exact H |].
  destruct H as [file Hfile]. split.
  - destruct (handleGenerate_cases w s)
      as [[Hb _]|[(? & ? & _ & _ & ->)|(? & ? & _ & _ & ->)]]; cbn;
      [congruence | discriminate | discriminate].
  - destruct (Handlers.handleGenerateBaseViews_cases w s)
      as [[Hb _]|[(? & ? & _ & _ & ->)|(? & ? & _ & _ & ->)]]; cbn;
      [congruence | discriminate | discriminate].
Qed.

Lemma enabled_buttons_meet_the_precondition_witness :
  buttonsDisabled sampleState = false /\
  is_Some (baseImageFile sampleState).
Proof.
  split; [reflexivity |].
  exact (proj1 (enabled_buttons_meet_the_precondition (sampleWorld allImages)
                  sampleState eq_refl)).
Defined.

(** X22. Which image a response yields: [extractImageUrl] looks only at
    the parts of the first candidate; it yields the data URI of the first
    part that carries inline data, whatever precedes or follows it, and
    yields nothing exactly when no such part carries inline data. An
    inline image without MIME type or data still yields a URI, with the
    text "undefined" in its place. *)
Theorem extractImageUrl_first_inline_part (response : GenerateContentResponse) :
  (forall before part after d,
     searchedParts response = (before ++ part :: after)%list ->
     Forall (fun p => inlineData p = None) before ->
     inlineData part = Some d ->
     extractImageUrl response = Some (dataUri d)) /\
  (extractImageUrl response = None <->
   Forall (fun p => inlineData p = None) (searchedParts response)) /\
  dataUri {| mimeType := None; data := None |} = "data:undefined;base64,undefined".
Proof.
  assert (Hfind :
            extractImageUrl response
            = match List.find (fun part => bool_decide (is_Some (inlineData part)))
                      (searchedParts response) with
              | Some part => match inlineData part with
                             | Some d => Some (dataUri d)
                             | None => None
                             end
              | None => None
              end).
  { unfold extractImageUrl, imagePartFromResponse, searchedParts.
    destruct (candidates response) as [[|c cs]|]; try reflexivity.
    destruct (content c) as [ct|]; try reflexivity.
    destruct (parts ct) as [ps|]; reflexivity. }
  rewrite Hfind. clear Hfind. split; [|split].
  - intros before part after d -> Hb Hd.
    induction Hb as [|p before Hp _ IH]; cbn [app List.find].
    + rewrite bool_decide_eq_true_2 by (rewrite Hd; eauto). now rewrite Hd.
    + rewrite bool_decide_eq_false_2; [exact IH |].
      rewrite Hp. intros [x Hx]. discriminate.
  - induction (searchedParts response) as [|p ps IH]; cbn [List.find].
    + split; [constructor | reflexivity].
    + destruct (inlineData p) as [d|] eqn:Hp.
      * rewrite bool_decide_eq_true_2 by eauto. cbv iota. rewrite Hp.
        split; [discriminate |]. intros H. inversion H; congruence.
      * rewrite bool_decide_eq_false_2 by (intros [x Hx]; discriminate).
        rewrite IH. split; intros H.
        -- constructor; assumption.
        -- now inversion H.
  - reflexivity.
Qed.

Lemma extractImageUrl_first_inline_part_witness :
  extractImageUrl (imageResponse "IMG0") = Some "data:image/png;base64,IMG0".
Proof.
  exact (proj1 (extractImageUrl_first_inline_part (imageResponse "IMG0"))
           [ {| inlineData := None; text := Some "Here is the design." |} ]
           {| inlineData := Some {| mimeType := Some "image/png"; data := Some "IMG0" |};
              text := None |}
           [] {| mimeType := Some "image/png"; data := Some "IMG0" |}
           eq_refl ltac:(repeat constructor) eq_refl).
Defined.

(** X23. The base views ignore the customization: what
    [handleGenerateBaseViews] requests, releases and displays does not
    depend on the selected options, the budget or the number of
    variations; its one request carries the fixed prompt of
    [generateBaseModelViews]. *)
Theorem base_views_ignore_the_customization
    (w : World) (s : AppState) (o : gmap string string) (b : Z) (n : nat) :
  snd (handleGenerateBaseViews w (setOptions o (setBudget b (setNumberOfVariations n s))))
  = snd (handleGenerateBaseViews w s) /\
  generatedImageUrls
    (fst (handleGenerateBaseViews w (setOptions o (setBudget b (setNumberOfVariations n s)))))
  = generatedImageUrls (fst (handleGenerateBaseViews w s)) /\
  error (fst (handleGenerateBaseViews w (setOptions o (setBudget b (setNumberOfVariations n s)))))
  = error (fst (handleGenerateBaseViews w s)) /\
  forall e, In e (snd (handleGenerateBaseViews w s)) ->
    forall req, e = EvGenerate req -> In (TextPart baseViewsPrompt) (contents req).
Proof.
  unfold handleGenerateBaseViews. cbn.
  destruct (baseImageFile s) as [file|].
  2: { repeat split. intros e []. }
  destruct (generateBaseModelViews w file) as [result calls] eqn:E.
  split; [reflexivity |]. split; [destruct result; reflexivity |].
  split; [destruct result; reflexivity |].
  cbn [snd]. intros e He req ->. apply in_app_or in He as [He|He].
  - unfold revokeAll in He. apply in_map_iff in He as (u & Hu & _). discriminate.
  - unfold generateBaseModelViews in E.
    destruct (bind (newGoogleGenAI w) _) as [part|e0]; injection E as _ <-.
    + destruct He as [He|[]]. injection He as <-. cbn. tauto.
    + destruct He.
Qed.

Lemma base_views_ignore_the_customization_witness :
  In (TextPart baseViewsPrompt)
     (contents (request (ImagePart "image/png" "UE5H") baseViewsPrompt)).
Proof.
  refine (proj2 (proj2 (proj2 (base_views_ignore_the_customization
            (sampleWorld allImages) sampleState initialOptions 0 1)))
            (EvGenerate (request (ImagePart "image/png" "UE5H") baseViewsPrompt))
            _ _ eq_refl).
  do 3 right. left. reflexivity.
Defined.

(** X24. The key guard on names that are not inherited: for every name
    that is not a property name of [Object.prototype], the change handler
    stores the value under the name when the name is one of the eight
    field names, and returns the state unchanged otherwise. *)
Theorem key_guard_on_own_names (name value : string) (s : AppState) :
  ~ In name object_prototype_keys ->
  (In name (map field_name all_fields) ->
   handleOptionChange name value s = setOptions (<[name := value]> (options s)) s) /\
  (~ In name (map field_name all_fields) ->
   handleOptionChange name value s = s).
Proof.
  intros Hproto. split.
  - intros Hin. apply in_map_iff in Hin as (f & <- & _).
    apply (handleOptionChange_field f value s).
  - intros Hnot. now apply handleOptionChange_rejected.
Qed.

Lemma key_guard_on_own_names_witness :
  handleOptionChange "notAField" "x" initialState = initialState.
Proof.
  refine (proj2 (key_guard_on_own_names "notAField" "x" initialState _) _).
  - cbn. intros H. repeat (destruct H as [H|H]; [discriminate H |]). exact H.
  - cbn. intros H. repeat (destruct H as [H|H]; [discriminate H |]). exact H.
Defined.
